(** * poly-flashloan-bot: the arbitrage evaluator of [src/inchPrice.ts]

    A shallow embedding of [checkArbitrage], [get1inchQuoteCallUrl],
    [chalkDifference], [chalkPercentage], [getProtocols], [getMaxPart] and
    [getRoutes], together with the parts of ethers v5 they call
    ([BigNumber.from], [utils.parseUnits], [utils.formatUnits]).

    - Smallest-unit amounts are [Z] (ethers' [BigNumber] is unbounded).
    - JavaScript doubles stay abstract: the interface [JsNumber] lists the
      operations the file uses, and [Chalk] the three colourings.
    - [checkArbitrage] is asynchronous and effectful: it calls [updateRow]
      and [sendRequest].  A run is a function from the trace of effects so
      far to an outcome ([None] when the promise rejects) and the extended
      trace.  The network is a function from the URLs requested so far and
      the URL requested now to the response. *)

From Stdlib Require Import ZArith List String Ascii Bool Lia DecimalString.
Import ListNotations.

Open Scope string_scope.
Open Scope Z_scope.

(** ** Strings and digits *)

Definition chars (s : string) : list ascii := list_ascii_of_string s.
Definition text (l : list ascii) : string := string_of_list_ascii l.

Definition is_digit (c : ascii) : bool :=
  ((48 <=? nat_of_ascii c) && (nat_of_ascii c <=? 57))%nat.

Definition digit_value (c : ascii) : Z := Z.of_nat (nat_of_ascii c - 48).

Definition hex_value (c : ascii) : option Z :=
  let n := nat_of_ascii c in
  if ((48 <=? n) && (n <=? 57))%nat then Some (Z.of_nat (n - 48))
  else if ((97 <=? n) && (n <=? 102))%nat then Some (Z.of_nat (n - 87))
  else if ((65 <=? n) && (n <=? 70))%nat then Some (Z.of_nat (n - 55))
  else None.

(** The value of a run of decimal digits, most significant first. *)
Definition digits_value (l : list ascii) : Z :=
  fold_left (fun acc c => 10 * acc + digit_value c) l 0.

Fixpoint hex_digits_value (acc : Z) (l : list ascii) : option Z :=
  match l with
  | [] => Some acc
  | c :: l' =>
      match hex_value c with
      | Some d => hex_digits_value (16 * acc + d) l'
      | None => None
      end
  end.

(** [s.length]: the UTF-16 code units of the text whose UTF-8 bytes [s]
    holds.  A byte below 128 or the lead byte of a two- or three-byte
    sequence starts a character of one unit, the lead byte of a four-byte
    sequence one of two units, and a continuation byte adds nothing. *)
Definition js_units (c : ascii) : nat :=
  let n := nat_of_ascii c in
  if (n <? 128)%nat then 1%nat
  else if (n <? 192)%nat then 0%nat
  else if (n <? 240)%nat then 1%nat
  else 2%nat.

Fixpoint js_length (s : string) : nat :=
  match s with
  | EmptyString => 0%nat
  | String c s' => (js_units c + js_length s')%nat
  end.

(** [String.prototype.padEnd] and [padStart] with the default filler. *)
Fixpoint spaces (n : nat) : string :=
  match n with
  | O => ""
  | S n' => String " " (spaces n')
  end.

Definition padEnd (s : string) (n : nat) : string :=
  s ++ spaces (n - js_length s).

Definition padStart (s : string) (n : nat) : string :=
  spaces (n - js_length s) ++ s.

(** Decimal rendering of an integer: [BigNumber.prototype.toString], and
    [Number.prototype.toString] on the integers a status code or a chain id
    takes. *)
Definition string_of_Z (z : Z) : string :=
  NilZero.string_of_int (Z.to_int z).

Definition string_of_N (n : N) : string := string_of_Z (Z.of_N n).

(** ** ethers v5 *)

(** A value the code hands to ethers as an amount: a [BigNumber], or the
    string of the provider's JSON body ([toTokenAmount], [fromTokenAmount]).
    The parameter of [get1inchQuoteCallUrl] is declared [BigNumber], but
    [resultData1] is untyped and its string goes in as it is. *)
Inductive jsAmount : Type :=
| BN (z : Z)
| Raw (s : string).

(** [amount.toString()]: decimal digits for a [BigNumber], the string itself
    for a string. *)
Definition amount_toString (a : jsAmount) : string :=
  match a with
  | BN z => string_of_Z z
  | Raw s => s
  end.

(** [BigNumber.from] on a string: [-?0x] and hex digits of either case, or
    [-?] and decimal digits; anything else throws.  The test of the hex
    form ignores case, but [toHex] knows the lower-case prefix only: after
    [0X] the object it builds holds no number, and [lt] and [formatUnits],
    the only uses the file makes of it, throw on it.  [None] stands for
    both throws. *)
Definition is_hex_prefixed (l : list ascii) : bool :=
  match l with
  | z :: x :: _ :: _ =>
      Ascii.eqb z "0"%char && Ascii.eqb x "x"%char
  | _ => false
  end.

Definition unsigned_of_chars (l : list ascii) : option Z :=
  if is_hex_prefixed l then hex_digits_value 0 (skipn 2 l)
  else
    match l with
    | _ :: _ => if forallb is_digit l then Some (digits_value l) else None
    | [] => None
    end.

Definition BigNumber_from_string (s : string) : option Z :=
  match chars s with
  | "-"%char :: l => option_map Z.opp (unsigned_of_chars l)
  | l => unsigned_of_chars l
  end.

Definition BigNumber_from (a : jsAmount) : option Z :=
  match a with
  | BN z => Some z
  | Raw s => BigNumber_from_string s
  end.

(** [getMultiplier]: a decimals count is an integer of 0..256. *)
Definition getMultiplier (decimals : nat) : option Z :=
  if (decimals <=? 256)%nat then Some (10 ^ Z.of_nat decimals) else None.

(** [value.split(".")]. *)
Fixpoint split_dot (l : list ascii) : list (list ascii) :=
  match l with
  | [] => [[]]
  | c :: l' =>
      if Ascii.eqb c "."%char then [] :: split_dot l'
      else
        match split_dot l' with
        | first :: rest => (c :: first) :: rest
        | [] => [[c]]
        end
  end.

(** The loop [while (fraction[fraction.length - 1] === "0")], on the
    reversed fraction. *)
Fixpoint drop_zeros (rev_fraction : list ascii) : list ascii :=
  match rev_fraction with
  | c :: l' => if Ascii.eqb c "0"%char then drop_zeros l' else rev_fraction
  | [] => []
  end.

Definition trim_trailing_zeros (fraction : list ascii) : list ascii :=
  rev (drop_zeros (rev fraction)).

Definition pad_zeros (fraction : list ascii) (decimals : nat) : list ascii :=
  (fraction ++ repeat "0"%char (decimals - List.length fraction))%list.

Definition or_zero (l : list ascii) : list ascii :=
  match l with
  | [] => ["0"%char]
  | _ => l
  end.

(** The characters of the test [/^-?[0-9.]+$/]. *)
Definition digit_or_dot (c : ascii) : bool :=
  is_digit c || Ascii.eqb c "."%char.

Definition starts_with_minus (l : list ascii) : bool :=
  match l with
  | c :: _ => Ascii.eqb c "-"%char
  | [] => false
  end.

Definition is_lone_dot (l : list ascii) : bool :=
  match l with
  | [c] => Ascii.eqb c "."%char
  | _ => false
  end.

Definition is_empty (l : list ascii) : bool :=
  match l with
  | [] => true
  | _ => false
  end.

(** [parseFixed(value, decimals)], which [utils.parseUnits] calls when its
    second argument is a number: the test of the characters, the sign, the
    split at the point, the fraction trimmed, checked against [decimals] and
    padded, and [whole * multiplier + fraction]. *)
Definition parseFixed (value : string) (decimals : nat) : option Z :=
  match getMultiplier decimals with
  | None => None
  | Some multiplier =>
      let v := chars value in
      let negative := starts_with_minus v in
      let body := if negative then tl v else v in
      if is_empty body || negb (forallb digit_or_dot body) then None
      else if is_lone_dot body then None
      else
        match split_dot body with
        | whole :: rest =>
            match rest with
            | _ :: _ :: _ => None
            | _ =>
                let fraction := or_zero (hd [] rest) in
                let fraction := trim_trailing_zeros fraction in
                if (decimals <? List.length fraction)%nat then None
                else
                  let fraction := pad_zeros (or_zero fraction) decimals in
                  let wei :=
                    digits_value (or_zero whole) * multiplier
                    + digits_value fraction in
                  Some (if negative then - wei else wei)
            end
        | [] => None
        end
  end.

Definition parseUnits (value : string) (decimals : nat) : option Z :=
  parseFixed value decimals.

(** The text [whole.fraction], or [whole] when there is no fraction: what
    [Number.prototype.toString] prints for a double it does not print in
    exponent notation.  It stands for [digits_value (whole ++ fraction)]
    divided by [10 ^ length fraction]. *)
Definition decimal_literal (whole fraction : list ascii) : string :=
  text (match fraction with
        | [] => whole
        | _ => whole ++ "."%char :: fraction
        end)%list.

(** [whole] and [fraction] are runs of digits, the first not empty, and the
    fraction fits [decimals]. *)
Definition literal_fits (whole fraction : list ascii) (decimals : nat) : bool :=
  negb (is_empty whole)
  && forallb is_digit whole
  && forallb is_digit fraction
  && (List.length fraction <=? decimals)%nat.

(** [formatFixed(value, decimals)], which [utils.formatUnits] calls when its
    second argument is a number. *)
Definition formatFixed (value : jsAmount) (decimals : nat) : option string :=
  match getMultiplier decimals, BigNumber_from value with
  | Some multiplier, Some v =>
      let negative := v <? 0 in
      let v := Z.abs v in
      let fraction := chars (string_of_Z (v mod multiplier)) in
      let fraction :=
        (repeat "0"%char (decimals - List.length fraction) ++ fraction)%list in
      let fraction := or_zero (trim_trailing_zeros fraction) in
      let whole := string_of_Z (v / multiplier) in
      let s :=
        if (decimals =? 0)%nat then whole
        else whole ++ "." ++ text fraction in
      Some (if negative then "-" ++ s else s)
  | _, _ => None
  end.

Definition formatUnits (value : jsAmount) (decimals : nat) : option string :=
  formatFixed value decimals.

(** ** The JavaScript runtime *)

(** Doubles.  [lit] is an integer literal of the source ([0], [100]),
    [Number] the conversion of a string, [toString] and [toFixed] the
    methods of [Number.prototype]. *)
Class JsNumber : Type := {
  number : Type;
  lit : Z -> number;
  Number : string -> number;
  add : number -> number -> number;
  sub : number -> number -> number;
  mul : number -> number -> number;
  div : number -> number -> number;
  lt : number -> number -> bool;
  toString : number -> string;
  toFixed : number -> nat -> string
}.

(** The colourings of the [chalk] package. *)
Class Chalk : Type := {
  red : string -> string;
  yellow : string -> string;
  green : string -> string
}.

(** ** Data model *)

(** [IToken] of [constrants/addresses], and the token a quote echoes. *)
Module IToken.
Record t : Type := mk {
  symbol : string;
  address : string;
  decimals : nat
}.
End IToken.

(** [IProtocol] of [interfaces/inch]: one split of a hop.  [part] is the
    share of the hop's volume, a whole number of percent in the provider's
    answers.  It is a double in the code and an integer here: the code only
    compares parts, with each other and with 0, and so does everything
    proved of them below. *)
Module IProtocol.
Record t : Type := mk {
  name : string;
  part : Z;
  toTokenAddress : string
}.
End IProtocol.

(** [IRoute] of [interfaces/main]: one step of a flattened route. *)
Module IRoute.
Record t : Type := mk {
  name : string;
  toTokenAddress : string
}.
End IRoute.

(** [IProtocol[][][]]: alternative routes, hops, parallel splits. *)
Definition splitTree : Type := list (list (list IProtocol.t)).

(** The body of a successful quote. *)
Module Quote.
Record t : Type := mk {
  fromToken : IToken.t;
  toToken : IToken.t;
  fromTokenAmount : string;
  toTokenAmount : string;
  protocols : splitTree
}.
End Quote.

(** [e.response.data] where it is a value with properties: its [error] is
    a string, or is missing ([None]), as on a body that is not the
    provider's error object. *)
Module ErrorData.
Record t : Type := mk {
  error : option string
}.
End ErrorData.

(** [e.response] of an axios error.  [data] is [None] where
    [e.response.data] is [null] or [undefined], so that reading its [error]
    throws. *)
Module ErrorResponse.
Record t : Type := mk {
  status : N;
  statusText : string;
  data : option ErrorData.t
}.
End ErrorResponse.

(** What [sendRequest] resolves to: a quote, or an object whose
    [isAxiosError] is set and whose [response] may be undefined. *)
Inductive requestResult : Type :=
| QuoteData (q : Quote.t)
| AxiosError (response : option ErrorResponse.t).

(** What the display conversions of [checkArbitrage] need in order not to
    throw: an amount [BigNumber.from] reads and decimals [getMultiplier]
    accepts.  The failure branch of the second request and the success
    path convert the first quote's [fromTokenAmount] at its [fromToken]'s
    decimals; the success path also converts the second quote's
    [toTokenAmount] at its [toToken]'s decimals. *)
Definition reads_as_amount (s : string) : bool :=
  match BigNumber_from (Raw s) with
  | Some _ => true
  | None => false
  end.

Definition from_side_ok (q : Quote.t) : bool :=
  reads_as_amount (Quote.fromTokenAmount q)
  && (IToken.decimals (Quote.fromToken q) <=? 256)%nat.

Definition to_side_ok (q : Quote.t) : bool :=
  reads_as_amount (Quote.toTokenAmount q)
  && (IToken.decimals (Quote.toToken q) <=? 256)%nat.

(** The partial record [updateRow] takes. *)
Module RowUpdate.
Record t : Type := mk {
  fromToken : option string;
  toToken : option string;
  fromAmount : option string;
  toAmount : option string;
  difference : option string;
  percentage : option string;
  log : option string
}.
Definition only_log (s : string) : t :=
  mk None None None None None None (Some s).
End RowUpdate.

(** The second argument of [updateRow].  The last call passes
    [isProfitable ?? "green"], which is the boolean itself. *)
Inductive colorValue : Type :=
| ColorName (c : string)
| ColorFlag (b : bool).

(** ** Effects *)

Inductive event : Type :=
| UpdateRow (row : RowUpdate.t) (color : option colorValue)
| SendRequest (url : string).

Definition trace : Type := list event.

Fixpoint requests (tr : trace) : list string :=
  match tr with
  | [] => []
  | SendRequest url :: tr' => url :: requests tr'
  | UpdateRow _ _ :: tr' => requests tr'
  end.

(** The quote provider: the response to a URL, given the URLs requested
    before it. *)
Definition network : Type := list string -> string -> requestResult.

(** A computation over the trace that may throw. *)
Definition M (A : Type) : Type := trace -> option A * trace.

Definition ret {A : Type} (a : A) : M A := fun tr => (Some a, tr).

Definition bind {A B : Type} (m : M A) (k : A -> M B) : M B :=
  fun tr =>
    match m tr with
    | (Some a, tr') => k a tr'
    | (None, tr') => (None, tr')
    end.

(** A library call that returns or throws. *)
Definition try {A : Type} (o : option A) : M A := fun tr => (o, tr).

Definition updateRow (row : RowUpdate.t) (color : option colorValue) : M unit :=
  fun tr => (Some tt, (tr ++ [UpdateRow row color])%list).

Definition sendRequest (net : network) (url : string) : M requestResult :=
  fun tr => (Some (net (requests tr) url), (tr ++ [SendRequest url])%list).

Declare Scope js_scope.
Delimit Scope js_scope with js.
Notation "x <- m ;; k" := (bind m (fun x => k))
  (at level 100, m at next level, right associativity) : js_scope.
Notation "m ;;; k" := (bind m (fun _ => k))
  (at level 100, right associativity) : js_scope.

(** ** Configuration *)

(** The constants of [config] the file imports.  A chain id is an integer;
    the loan and the margin are doubles. *)
Module Config.
Record t {num : JsNumber} : Type := mk {
  chainId : N;
  protocols : string;
  diffAmount : number;
  loanAmount : number
}.
End Config.

(** What [checkArbitrage] resolves to: the tuple
    [[isProfitable, firstProtocols, secondProtocols, toTokenAmount.toFixed(2),
    chalkDifference(difference), chalkPercentage(percentage)]], whose last
    three places are absent on the failure paths. *)
Record evaluation : Type := mkEvaluation {
  isProfitable : bool;
  firstProtocols : option splitTree;
  secondProtocols : option splitTree;
  toAmount : option string;
  difference : option string;
  percentage : option string
}.

(** ** The evaluator *)

Section Evaluator.

Context {num : JsNumber} {ch : Chalk}.
Variable cfg : Config.t.
Variable net : network.

Definition get1inchQuoteCallUrl (chainId : N)
    (fromTokenAddress toTokenAddress : string) (amount : jsAmount) : string :=
  "https://api.1inch.exchange/v4.0/" ++
  string_of_N chainId ++
  "/quote?" ++
  "fromTokenAddress=" ++
  fromTokenAddress ++
  "&toTokenAddress=" ++
  toTokenAddress ++
  "&amount=" ++
  amount_toString amount ++
  "&mainRouteParts=50" ++
  "&protocols=" ++
  Config.protocols cfg.

Definition chalkDifference (difference : number) : string :=
  let fixedDiff := toFixed difference 1 in
  if lt difference (lit 0) then red fixedDiff
  else if lt difference (Config.diffAmount cfg) then yellow fixedDiff
  else green fixedDiff.

Definition chalkPercentage (percentage : number) : string :=
  let fixedDiff := toFixed percentage 1 in
  if lt percentage (lit 0) then red fixedDiff
  else green fixedDiff.

(** The [log] of both failure branches (lines 109-117 and 158-166): the
    empty string where [e.response] is undefined; otherwise the status, the
    status text and [e.response.data.error], which prints as [undefined]
    where [data] has no [error] and throws a [TypeError] ([None]) where
    [data] is [null] or [undefined]. *)
Definition failureLog (response : option ErrorResponse.t) : option string :=
  match response with
  | Some r =>
      match ErrorResponse.data r with
      | Some d =>
          Some
            (string_of_N (ErrorResponse.status r) ++
             ": " ++
             ErrorResponse.statusText r ++
             " (" ++
             match ErrorData.error d with
             | Some message => message
             | None => "undefined"
             end ++
             ")")
      | None => None
      end
  | None => Some ""
  end.

(** [amount] and [amountDiff] of lines 76-83. *)
Definition baseAmount (fromToken : IToken.t) : option Z :=
  parseUnits (toString (Config.loanAmount cfg)) (IToken.decimals fromToken).

Definition thresholdAmount (fromToken : IToken.t) : option Z :=
  parseUnits
    (toString (add (Config.loanAmount cfg) (Config.diffAmount cfg)))
    (IToken.decimals fromToken).

(** [firstCallURL] and [secondCallURL] of lines 85-90 and 129-134. *)
Definition firstCallURL (fromToken toToken : IToken.t) (amount : Z) : string :=
  get1inchQuoteCallUrl (Config.chainId cfg) (IToken.address fromToken)
    (IToken.address toToken) (BN amount).

Definition secondCallURL (fromToken toToken : IToken.t)
    (returnAmount : string) : string :=
  get1inchQuoteCallUrl (Config.chainId cfg) (IToken.address toToken)
    (IToken.address fromToken) (Raw returnAmount).

(** [Number(ethers.utils.formatUnits(value, decimals))]. *)
Definition decimalAmount (value : jsAmount) (decimals : nat) : M number :=
  (s <- try (formatUnits value decimals) ;; ret (Number s))%js.

Definition checkArbitrage (fromToken toToken : IToken.t) : M evaluation :=
  (updateRow (RowUpdate.only_log "") (Some (ColorName "white")) ;;;
   let fromTokenDecimal := IToken.decimals fromToken in
   amount <- try (baseAmount fromToken) ;;
   amountDiff <- try (thresholdAmount fromToken) ;;
   let firstCallURL := firstCallURL fromToken toToken amount in
   updateRow
     (RowUpdate.only_log
        ("Getting quote for " ++ IToken.symbol fromToken ++ " → " ++
         IToken.symbol toToken ++ "…"))
     None ;;;
   resultData1 <- sendRequest net firstCallURL ;;
   match resultData1 with
   | AxiosError response =>
       fromAmount <- decimalAmount (BN amount) fromTokenDecimal ;;
       log <- try (failureLog response) ;;
       updateRow
         {| RowUpdate.fromToken := Some (padEnd (IToken.symbol fromToken) 6);
            RowUpdate.toToken := Some (padEnd (IToken.symbol toToken) 6);
            RowUpdate.fromAmount := Some (padStart (toFixed fromAmount 2) 7);
            RowUpdate.toAmount := None;
            RowUpdate.difference := None;
            RowUpdate.percentage := None;
            RowUpdate.log := Some log |}
         (Some (ColorName "red")) ;;;
       ret (mkEvaluation false None None None None None)
   | QuoteData resultData1 =>
       let firstProtocols := Quote.protocols resultData1 in
       let returnAmount := Quote.toTokenAmount resultData1 in
       let secondCallURL := secondCallURL fromToken toToken returnAmount in
       updateRow
         (RowUpdate.only_log
            ("Getting quote for " ++ IToken.symbol toToken ++ " → " ++
             IToken.symbol fromToken ++ "…"))
         None ;;;
       resultData2 <- sendRequest net secondCallURL ;;
       match resultData2 with
       | AxiosError response =>
           fromAmount <-
             decimalAmount (Raw (Quote.fromTokenAmount resultData1))
               (IToken.decimals (Quote.fromToken resultData1)) ;;
           log <- try (failureLog response) ;;
           updateRow
             {| RowUpdate.fromToken :=
                  Some (padEnd (IToken.symbol (Quote.fromToken resultData1)) 6);
                RowUpdate.toToken := Some (padEnd (IToken.symbol toToken) 6);
                RowUpdate.fromAmount := Some (padStart (toFixed fromAmount 2) 7);
                RowUpdate.toAmount := None;
                RowUpdate.difference := None;
                RowUpdate.percentage := None;
                RowUpdate.log := Some log |}
             (Some (ColorName "red")) ;;;
           ret (mkEvaluation false None None None None None)
       | QuoteData resultData2 =>
           let secondProtocols := Quote.protocols resultData2 in
           resultAmount <-
             try (BigNumber_from (Raw (Quote.toTokenAmount resultData2))) ;;
           let isProfitable := amountDiff <? resultAmount in
           fromTokenAmount <-
             decimalAmount (Raw (Quote.fromTokenAmount resultData1))
               (IToken.decimals (Quote.fromToken resultData1)) ;;
           toTokenAmount <-
             decimalAmount (Raw (Quote.toTokenAmount resultData2))
               (IToken.decimals (Quote.toToken resultData2)) ;;
           let difference := sub toTokenAmount fromTokenAmount in
           let percentage := mul (div difference fromTokenAmount) (lit 100) in
           updateRow
             {| RowUpdate.fromToken :=
                  Some (padEnd (IToken.symbol (Quote.fromToken resultData1)) 6);
                RowUpdate.toToken :=
                  Some (padEnd (IToken.symbol (Quote.toToken resultData1)) 6);
                RowUpdate.fromAmount := Some (padStart (toFixed fromTokenAmount 2) 7);
                RowUpdate.toAmount := Some (padStart (toFixed toTokenAmount 2) 7);
                RowUpdate.difference :=
                  Some (padStart (chalkDifference difference) 7);
                RowUpdate.percentage :=
                  Some (padStart (chalkPercentage percentage) 5);
                RowUpdate.log := Some "" |}
             (Some (ColorFlag isProfitable)) ;;;
           ret
             (mkEvaluation isProfitable (Some firstProtocols)
                (Some secondProtocols) (Some (toFixed toTokenAmount 2))
                (Some (chalkDifference difference))
                (Some (chalkPercentage percentage)))
       end
   end)%js.

End Evaluator.

(** ** Route extraction *)

(** The callback of [onehop.forEach] in [getMaxPart], run over the splits
    from position [index] on with the current [maxPart] and [key]. *)
Fixpoint forEach_maxPart (onehop : list IProtocol.t) (index : nat)
    (maxPart : Z) (key : nat) : Z * nat :=
  match onehop with
  | [] => (maxPart, key)
  | protocol :: rest =>
      if maxPart <? IProtocol.part protocol
      then forEach_maxPart rest (S index) (IProtocol.part protocol) index
      else forEach_maxPart rest (S index) maxPart key
  end.

(** [key] when the loop of [getMaxPart] ends: [maxPart = 0], [key = 0] at
    its start. *)
Definition maxPartKey (onehop : list IProtocol.t) : nat :=
  snd (forEach_maxPart onehop 0 0 0).

(** [onehop[key]], which is [undefined] ([None]) on an empty hop. *)
Definition getMaxPart (onehop : list IProtocol.t) : option IProtocol.t :=
  nth_error onehop (maxPartKey onehop).

(** The loop of [getProtocols] with the [route] built so far; reading
    [besthop.name] of [undefined] throws. *)
Fixpoint getProtocols_loop (mainRoute : list (list IProtocol.t))
    (route : list IRoute.t) : option (list IRoute.t) :=
  match mainRoute with
  | [] => Some route
  | onehop :: rest =>
      match getMaxPart onehop with
      | Some besthop =>
          getProtocols_loop rest
            (route ++
             [{| IRoute.name := IProtocol.name besthop;
                 IRoute.toTokenAddress := IProtocol.toTokenAddress besthop |}])%list
      | None => None
      end
  end.

(** [protocols[0]] is [undefined] on an empty array, and iterating it
    throws. *)
Definition getProtocols (protocols : splitTree) : option (list IRoute.t) :=
  match nth_error protocols 0 with
  | Some mainRoute => getProtocols_loop mainRoute []
  | None => None
  end.

(** [step] is the step [getProtocols] pushes for [onehop]. *)
Definition step_of_hop (onehop : list IProtocol.t) (step : IRoute.t) : Prop :=
  exists besthop,
    getMaxPart onehop = Some besthop /\
    step = {| IRoute.name := IProtocol.name besthop;
              IRoute.toTokenAddress := IProtocol.toTokenAddress besthop |}.

(** Modelled from the spec: [replaceTokenAddress] of [utils], which is not
    among the sources.  Section 4.3: a [toTokenAddress] equal to the native
    address is rewritten to the wrapped address, any other is kept. *)
Definition replaceTokenAddress (token address newAddress : string) : string :=
  if String.eqb token address then newAddress else token.

Section Routes.

(** [ERC20Token.MATIC] and [ERC20Token.WMATIC] of [constrants/addresses]. *)
Variables MATIC WMATIC : IToken.t.

Definition getRoutes (protocols : splitTree) : option (list IRoute.t) :=
  option_map
    (map (fun route =>
            {| IRoute.name := IRoute.name route;
               IRoute.toTokenAddress :=
                 replaceTokenAddress (IRoute.toTokenAddress route)
                   (IToken.address MATIC) (IToken.address WMATIC) |}))
    (getProtocols protocols).

End Routes.

(** ** JavaScript values

    The places of the returned tuple are untyped at run time.  To compare a
    nested split structure with a flattened route, both are read as the
    JavaScript values they are. *)
#[local] Unset Elimination Schemes.
Inductive jsValue : Type :=
| JNull
| JString (s : string)
| JInteger (z : Z)
| JArray (items : list jsValue)
| JObject (fields : list (string * jsValue)).
#[local] Set Elimination Schemes.

Definition value_of_protocol (p : IProtocol.t) : jsValue :=
  JObject
    [("name", JString (IProtocol.name p));
     ("part", JInteger (IProtocol.part p));
     ("toTokenAddress", JString (IProtocol.toTokenAddress p))].

Definition value_of_step (r : IRoute.t) : jsValue :=
  JObject
    [("name", JString (IRoute.name r));
     ("toTokenAddress", JString (IRoute.toTokenAddress r))].

Definition value_of_tree (t : splitTree) : jsValue :=
  JArray
    (map (fun route => JArray (map (fun hop => JArray (map value_of_protocol hop)) route)) t).

Definition value_of_route (r : list IRoute.t) : jsValue :=
  JArray (map value_of_step r).

Definition value_of_place (o : option splitTree) : jsValue :=
  match o with
  | Some t => value_of_tree t
  | None => JNull
  end.

(** ** A reference runtime

    Exact decimal arithmetic: [mant / 10 ^ scale].  It has no rounding, no
    infinities and no exponent notation, so it agrees with the doubles of
    JavaScript only where their results are exact and print in plain
    decimals.  Nothing general is proved of it: it is what the concrete
    runs below compute with, at such inputs. *)
Record decimal : Type := mkDecimal {
  mant : Z;
  scale : nat
}.

Definition pow10 (n : nat) : Z := 10 ^ Z.of_nat n.

Definition align (a b : decimal) : Z * Z * nat :=
  let s := Nat.max (scale a) (scale b) in
  (mant a * pow10 (s - scale a), mant b * pow10 (s - scale b), s).

Definition decimal_add (a b : decimal) : decimal :=
  let '(x, y, s) := align a b in mkDecimal (x + y) s.

Definition decimal_sub (a b : decimal) : decimal :=
  let '(x, y, s) := align a b in mkDecimal (x - y) s.

Definition decimal_mul (a b : decimal) : decimal :=
  mkDecimal (mant a * mant b) (scale a + scale b).

(** Seventeen digits after the point, truncated. *)
Definition decimal_div (a b : decimal) : decimal :=
  let '(x, y, _) := align a b in
  mkDecimal (Z.quot (x * pow10 17) y) 17.

Definition decimal_lt (a b : decimal) : bool :=
  let '(x, y, _) := align a b in x <? y.

Fixpoint strip_zeros (m : Z) (s : nat) : decimal :=
  match s with
  | O => mkDecimal m O
  | S s' => if m mod 10 =? 0 then strip_zeros (m / 10) s' else mkDecimal m s
  end.

Definition decimal_toString (a : decimal) : string :=
  let n := strip_zeros (mant a) (scale a) in
  match formatFixed (BN (mant n)) (scale n) with
  | Some s => s
  | None => "NaN"
  end.

Definition decimal_of_string (s : string) : decimal :=
  match parseFixed s 40 with
  | Some m => mkDecimal m 40
  | None => mkDecimal 0 0
  end.

(** Rounded half away from zero to [digits] places, all of them printed. *)
Definition decimal_toFixed (a : decimal) (digits : nat) : string :=
  let m := Z.abs (mant a) * pow10 digits in
  let q := (2 * m + pow10 (scale a)) / (2 * pow10 (scale a)) in
  let whole := string_of_Z (q / pow10 digits) in
  let fraction := chars (string_of_Z (q mod pow10 digits)) in
  let fraction :=
    (repeat "0"%char (digits - List.length fraction) ++ fraction)%list in
  let s :=
    if (digits =? 0)%nat then whole else whole ++ "." ++ text fraction in
  if (mant a <? 0) && negb (q =? 0) then "-" ++ s else s.

#[local] Instance DecimalNumber : JsNumber := {|
  number := decimal;
  lit := fun z => mkDecimal z 0;
  Number := decimal_of_string;
  add := decimal_add;
  sub := decimal_sub;
  mul := decimal_mul;
  div := decimal_div;
  lt := decimal_lt;
  toString := decimal_toString;
  toFixed := decimal_toFixed
|}.

(** [chalk] on a terminal without colours returns its argument. *)
#[local] Instance PlainChalk : Chalk := {|
  red := fun s => s;
  yellow := fun s => s;
  green := fun s => s
|}.

(** ** Concrete runs

    The scenario of the specification: an 18-decimals source token, a loan
    of 10 and a margin of 0.5; the first leg returns 10.6 units of the
    target token and the second 10.7 units of the source token. *)
Definition DAI : IToken.t :=
  IToken.mk "DAI" "0x8f3Cf7ad23Cd3CaDbD9735AFf958023239c6A063" 18.

Definition WETH : IToken.t :=
  IToken.mk "WETH" "0x7ceB23fD6bC0adD59E62ac25578270cFf1b9f619" 18.

Definition demoMATIC : IToken.t :=
  IToken.mk "MATIC" "0xeeeeeeeeeeeeeeeeeeeeeeeeeeeeeeeeeeeeeeee" 18.

Definition demoWMATIC : IToken.t :=
  IToken.mk "WMATIC" "0x0d500B1d8E8eF31E21C99d1Db9A6444d3ADf1270" 18.

Definition demoConfig : Config.t :=
  Config.mk DecimalNumber 137 "POLYGON_SUSHISWAP,POLYGON_QUICKSWAP"
    (mkDecimal 5 1) (mkDecimal 10 0).

Definition mkSplit (name : string) (part : Z) (toToken : IToken.t) :
    IProtocol.t :=
  IProtocol.mk name part (IToken.address toToken).

(** One route of two hops; the first hop is split 30/70. *)
Definition outboundTree : splitTree :=
  [[[mkSplit "POLYGON_SUSHISWAP" 30 demoMATIC;
     mkSplit "POLYGON_QUICKSWAP" 70 demoMATIC];
    [mkSplit "POLYGON_QUICKSWAP" 100 WETH]]].

Definition returnTree : splitTree :=
  [[[mkSplit "POLYGON_SUSHISWAP" 100 DAI]]].

(** The same primary route, and an alternative one after it. *)
Definition outboundTree_alt : splitTree :=
  (outboundTree ++ [[[mkSplit "POLYGON_SUSHISWAP" 100 WETH]]])%list.

Definition quote1 : Quote.t :=
  Quote.mk DAI WETH "10000000000000000000" "10600000000000000000"
    outboundTree.

Definition quote2 : Quote.t :=
  Quote.mk WETH DAI "10600000000000000000" "10700000000000000000"
    returnTree.


Definition badRequest : ErrorResponse.t :=
  ErrorResponse.mk 400 "Bad Request"
    (Some (ErrorData.mk (Some "insufficient liquidity"))).

(** A failure whose response has no body to read an [error] from. *)
Definition badGateway : ErrorResponse.t :=
  ErrorResponse.mk 502 "Bad Gateway" None.

Definition net_leg1_no_data : network :=
  fun _ _ => AxiosError (Some badGateway).

Definition net_leg2_no_data : network :=
  fun history _ => match history with
                   | [] => QuoteData quote1
                   | _ => AxiosError (Some badGateway)
                   end.

Definition net_both_legs : network :=
  fun history _ => match history with
                   | [] => QuoteData quote1
                   | _ => QuoteData quote2
                   end.


Definition net_leg1_fails : network :=
  fun _ _ => AxiosError (Some badRequest).

Definition net_leg2_fails : network :=
  fun history _ => match history with
                   | [] => QuoteData quote1
                   | _ => AxiosError (Some badRequest)
                   end.

(** Hops for the dominant-split selection. *)
Definition hop_30_70_70 : list IProtocol.t :=
  [mkSplit "A" 30 WETH; mkSplit "B" 70 WETH; mkSplit "C" 70 WETH].

Definition hop_negative : list IProtocol.t :=
  [mkSplit "A" (-5) WETH; mkSplit "B" (-1) WETH].

(** ** Further inputs and statement helpers *)

(** The first call of [updateRow] in [checkArbitrage] (lines 65-72). *)
Definition resetRow : event :=
  UpdateRow (RowUpdate.only_log "") (Some (ColorName "white")).

(** A six-decimals token, and a configuration whose margin has seven
    places. *)
Definition USDC : IToken.t :=
  IToken.mk "USDC" "0x2791Bca1f2de4661ED88A30C99A7a9449Aa84174" 6.

Definition fineMarginConfig : Config.t :=
  Config.mk DecimalNumber 137 "POLYGON_SUSHISWAP,POLYGON_QUICKSWAP"
    (mkDecimal 1 7) (mkDecimal 10 0).

(** A second quote whose amount is not an integer string. *)
Definition quote2_malformed : Quote.t :=
  Quote.mk WETH DAI "10600000000000000000" "1.07e19" returnTree.

Definition net_malformed_leg2 : network :=
  fun history _ => match history with
                   | [] => QuoteData quote1
                   | _ => QuoteData quote2_malformed
                   end.

(** The rows a trace holds, oldest first. *)
Fixpoint rowUpdates (tr : trace) : list RowUpdate.t :=
  match tr with
  | [] => []
  | UpdateRow row _ :: tr' => row :: rowUpdates tr'
  | SendRequest _ :: tr' => rowUpdates tr'
  end.

(** A cell that is absent or at least [width] code units long, as
    JavaScript measures it. *)
Definition cell_wide (width : nat) (cell : option string) : Prop :=
  match cell with
  | Some s => (width <= js_length s)%nat
  | None => True
  end.

(** The column widths [checkArbitrage] pads to: 6 for a symbol, 7 for an
    amount or a difference, 5 for a percentage. *)
Definition row_padded (row : RowUpdate.t) : Prop :=
  cell_wide 6 (RowUpdate.fromToken row) /\
  cell_wide 6 (RowUpdate.toToken row) /\
  cell_wide 7 (RowUpdate.fromAmount row) /\
  cell_wide 7 (RowUpdate.toAmount row) /\
  cell_wide 7 (RowUpdate.difference row) /\
  cell_wide 5 (RowUpdate.percentage row).

(** The step [getProtocols] makes of a split. *)
Definition step_of_split (p : IProtocol.t) : IRoute.t :=
  {| IRoute.name := IProtocol.name p;
     IRoute.toTokenAddress := IProtocol.toTokenAddress p |}.

(** A token whose symbol has a character outside ASCII: four UTF-16 code
    units in six bytes. *)
Definition USDT : IToken.t :=
  IToken.mk "USD₮" "0xc2132D05D31c914a87C6611C10748AEb04B58e8F" 6.

(** A first route with an empty hop. *)
Definition tree_with_empty_hop : splitTree :=
  [[[mkSplit "POLYGON_SUSHISWAP" 100 WETH]; []]].

(** * Properties *)

Ltac splits := repeat match goal with |- _ /\ _ => split end.

(** ** The dominant split of a hop *)

(** What the loop of [getMaxPart] leaves in [maxPart] and [key]: either no
    split beat the maximum it started with, or [key] is the first position
    of the largest part. *)
Lemma forEach_maxPart_spec :
  forall onehop index maxPart key,
    let r := forEach_maxPart onehop index maxPart key in
    (fst r = maxPart /\ snd r = key /\
     forall q, In q onehop -> IProtocol.part q <= maxPart)
    \/
    (exists j p,
        snd r = (index + j)%nat /\
        nth_error onehop j = Some p /\
        IProtocol.part p = fst r /\
        maxPart < fst r /\
        (forall q, In q onehop -> IProtocol.part q <= fst r) /\
        (forall i q, (i < j)%nat -> nth_error onehop i = Some q ->
                     IProtocol.part q < fst r)).
Proof.
  induction onehop as [|p rest IH]; intros index maxPart key; cbn zeta.
  - left. simpl. splits; auto. intros q [].
  - simpl. destruct (Z.ltb_spec maxPart (IProtocol.part p)) as [Hlt|Hge].
    + destruct (IH (S index) (IProtocol.part p) index)
        as [(Hm & Hk & Hall)|(j & p' & Hk & Hn & Hp & Hlt' & Hall & Hbefore)].
      * right. exists 0%nat, p. rewrite Hm, Hk.
        splits; auto with arith.
        -- intros q [<-|Hq]; [lia | auto].
        -- intros i q Hi. lia.
      * right. exists (S j), p'. rewrite Hk.
        splits; auto; try lia.
        -- intros q [<-|Hq]; [lia | auto].
        -- intros [|i] q Hi Hq; simpl in Hq.
           ++ injection Hq as <-. lia.
           ++ apply (Hbefore i); [lia | exact Hq].
    + destruct (IH (S index) maxPart key)
        as [(Hm & Hk & Hall)|(j & p' & Hk & Hn & Hp & Hlt' & Hall & Hbefore)].
      * left. splits; auto.
        intros q [<-|Hq]; [lia | auto].
      * right. exists (S j), p'. rewrite Hk.
        splits; auto; try lia.
        -- intros q [<-|Hq]; [lia | auto].
        -- intros [|i] q Hi Hq; simpl in Hq.
           ++ injection Hq as <-. lia.
           ++ apply (Hbefore i); [lia | exact Hq].
Qed.

(** C4, as amended.  In a hop where some split has a strictly positive part,
    [getMaxPart] returns the split at the first position of the largest
    part: no split of the hop has a larger part, and every split before it
    has a strictly smaller one.  For parts 30, 70, 70 that is position 1. *)
Theorem getMaxPart_first_largest :
  (forall onehop,
      (exists q, In q onehop /\ 0 < IProtocol.part q) ->
      exists p,
        getMaxPart onehop = Some p /\
        nth_error onehop (maxPartKey onehop) = Some p /\
        (forall q, In q onehop -> IProtocol.part q <= IProtocol.part p) /\
        (forall i q, (i < maxPartKey onehop)%nat ->
                     nth_error onehop i = Some q ->
                     IProtocol.part q < IProtocol.part p))
  /\
  (forall a b c,
      IProtocol.part a = 30 -> IProtocol.part b = 70 ->
      IProtocol.part c = 70 ->
      maxPartKey [a; b; c] = 1%nat /\ getMaxPart [a; b; c] = Some b).
Proof.
  split.
  - intros onehop (q0 & Hin & Hpos).
    unfold getMaxPart, maxPartKey.
    destruct (forEach_maxPart_spec onehop 0 0 0)
      as [(_ & _ & Hall)|(j & p & Hk & Hn & Hp & _ & Hall & Hbefore)].
    + specialize (Hall q0 Hin). lia.
    + simpl in Hk. rewrite Hk. exists p. rewrite Hp.
      splits; auto.
  - intros a b c Ha Hb Hc.
    unfold getMaxPart, maxPartKey. simpl.
    rewrite Ha, Hb, Hc. simpl. split; reflexivity.
Qed.

Lemma getMaxPart_first_largest_witness :
  exists p,
    getMaxPart hop_30_70_70 = Some p /\
    nth_error hop_30_70_70 (maxPartKey hop_30_70_70) = Some p /\
    (forall q, In q hop_30_70_70 -> IProtocol.part q <= IProtocol.part p) /\
    (forall i q, (i < maxPartKey hop_30_70_70)%nat ->
                 nth_error hop_30_70_70 i = Some q ->
                 IProtocol.part q < IProtocol.part p).
Proof.
  apply (proj1 getMaxPart_first_largest hop_30_70_70).
  exists (mkSplit "B" 70 WETH). split; [simpl; auto | reflexivity].
Defined.

(** C4 as it is stated fails: in the hop with parts -5 and -1 the split
    that [getMaxPart] returns is not one with the largest part. *)
Lemma getMaxPart_not_largest_on_negative_parts :
  ~ (exists p,
        getMaxPart hop_negative = Some p /\
        forall q, In q hop_negative -> IProtocol.part q <= IProtocol.part p).
Proof.
  intros (p & Hp & Hall).
  vm_compute in Hp. injection Hp as <-.
  specialize (Hall (mkSplit "B" (-1) WETH) (or_intror (or_introl eq_refl))).
  simpl in Hall. lia.
Qed.

(** C10.  In a non-empty hop whose parts are all at most 0, [getMaxPart]
    returns the split at position 0, whatever the later parts are: the
    running maximum starts at 0 and only a strictly larger part replaces
    it. *)
Theorem getMaxPart_nonpositive_parts_first :
  forall first rest,
    (forall q, In q (first :: rest) -> IProtocol.part q <= 0) ->
    maxPartKey (first :: rest) = 0%nat /\
    getMaxPart (first :: rest) = Some first.
Proof.
  intros first rest Hall.
  assert (Hkey : maxPartKey (first :: rest) = 0%nat).
  { unfold maxPartKey.
    destruct (forEach_maxPart_spec (first :: rest) 0 0 0)
      as [(_ & Hk & _)|(j & p & _ & Hn & Hp & Hlt & _ & _)].
    - exact Hk.
    - apply nth_error_In in Hn. specialize (Hall p Hn). lia. }
  split; [exact Hkey|].
  unfold getMaxPart. rewrite Hkey. reflexivity.
Qed.

Lemma getMaxPart_nonpositive_parts_first_witness :
  maxPartKey hop_negative = 0%nat /\
  getMaxPart hop_negative = Some (mkSplit "A" (-5) WETH) /\
  IProtocol.part (mkSplit "A" (-5) WETH) < IProtocol.part (mkSplit "B" (-1) WETH).
Proof.
  destruct (getMaxPart_nonpositive_parts_first
              (mkSplit "A" (-5) WETH) [mkSplit "B" (-1) WETH]) as [Hk Hp].
  - intros q [<-|[<-|[]]]; simpl; lia.
  - split; [exact Hk|]. split; [exact Hp|]. simpl. lia.
Defined.

(** ** Route extraction *)

Lemma getProtocols_loop_spec :
  forall mainRoute route result,
    getProtocols_loop mainRoute route = Some result ->
    exists steps,
      result = (route ++ steps)%list /\ Forall2 step_of_hop mainRoute steps.
Proof.
  induction mainRoute as [|onehop rest IH]; intros route result H; simpl in H.
  - injection H as <-. exists []. rewrite app_nil_r. split; constructor.
  - destruct (getMaxPart onehop) as [besthop|] eqn:Hbest; [|discriminate].
    destruct (IH _ _ H) as (steps & -> & Hsteps).
    eexists (_ :: steps). rewrite <- app_assoc. split; [reflexivity|].
    constructor; [|exact Hsteps].
    exists besthop. split; [exact Hbest | reflexivity].
Qed.

(** When [getProtocols] returns, it returns one step per hop of the first
    route, in the order of the hops. *)
Lemma getProtocols_one_step_per_hop :
  forall protocols route,
    getProtocols protocols = Some route ->
    exists mainRoute,
      nth_error protocols 0 = Some mainRoute /\
      Forall2 step_of_hop mainRoute route.
Proof.
  intros protocols route H. unfold getProtocols in H.
  destruct (nth_error protocols 0) as [mainRoute|]; [|discriminate].
  exists mainRoute. split; [reflexivity|].
  destruct (getProtocols_loop_spec _ _ _ H) as (steps & -> & Hsteps).
  exact Hsteps.
Qed.

(** [getProtocols] returns on every tree whose first route has no empty
    hop. *)
Lemma getProtocols_loop_total :
  forall mainRoute route,
    Forall (fun onehop => onehop <> []) mainRoute ->
    exists result, getProtocols_loop mainRoute route = Some result.
Proof.
  induction mainRoute as [|onehop rest IH]; intros route Hne; simpl.
  - eexists; reflexivity.
  - inversion Hne as [|? ? Hhop Hrest]; subst.
    destruct (getMaxPart onehop) as [besthop|] eqn:Hbest.
    + apply IH; exact Hrest.
    + exfalso. unfold getMaxPart in Hbest.
      apply nth_error_None in Hbest.
      unfold maxPartKey in Hbest.
      destruct (forEach_maxPart_spec onehop 0 0 0)
        as [(_ & Hk & _)|(j & p & Hk & Hn & _)].
      * rewrite Hk in Hbest. destruct onehop; [congruence | simpl in Hbest; lia].
      * rewrite Hk in Hbest. simpl in Hbest.
        assert (nth_error onehop j <> None) by congruence.
        apply nth_error_Some in H. lia.
Qed.

(** C5.  Two split trees with the same element at index 0 (or both with
    none) have the same extracted route, with and without the address
    normalization. *)
Theorem getProtocols_reads_first_route_only :
  forall protocols1 protocols2 : splitTree,
    nth_error protocols1 0 = nth_error protocols2 0 ->
    getProtocols protocols1 = getProtocols protocols2 /\
    forall MATIC WMATIC,
      getRoutes MATIC WMATIC protocols1 = getRoutes MATIC WMATIC protocols2.
Proof.
  intros protocols1 protocols2 H.
  assert (Heq : getProtocols protocols1 = getProtocols protocols2).
  { unfold getProtocols. rewrite H. reflexivity. }
  split; [exact Heq|].
  intros MATIC WMATIC. unfold getRoutes. rewrite Heq. reflexivity.
Qed.

Lemma getProtocols_reads_first_route_only_witness :
  outboundTree <> outboundTree_alt /\
  getProtocols outboundTree = getProtocols outboundTree_alt /\
  forall MATIC WMATIC,
    getRoutes MATIC WMATIC outboundTree =
    getRoutes MATIC WMATIC outboundTree_alt.
Proof.
  split; [discriminate|].
  apply (getProtocols_reads_first_route_only outboundTree outboundTree_alt).
  reflexivity.
Defined.

(** X1.  On a tree with a first route none of whose hops is empty,
    [getProtocols] returns, with as many steps as the route has hops. *)
Theorem getProtocols_returns_on_nonempty_hops :
  forall protocols mainRoute,
    nth_error protocols 0 = Some mainRoute ->
    Forall (fun onehop => onehop <> []) mainRoute ->
    exists route,
      getProtocols protocols = Some route /\
      List.length route = List.length mainRoute.
Proof.
  intros protocols mainRoute Hfirst Hhops.
  destruct (getProtocols_loop_total mainRoute [] Hhops) as [route Hloop].
  assert (Hget : getProtocols protocols = Some route).
  { unfold getProtocols. rewrite Hfirst. exact Hloop. }
  exists route. split; [exact Hget|].
  destruct (getProtocols_one_step_per_hop _ _ Hget) as (main' & Hmain & Hsteps).
  rewrite Hfirst in Hmain. injection Hmain as <-.
  symmetry. eapply Forall2_length. exact Hsteps.
Qed.

Lemma getProtocols_returns_on_nonempty_hops_witness :
  exists route,
    getProtocols outboundTree = Some route /\ List.length route = 2%nat.
Proof.
  apply (getProtocols_returns_on_nonempty_hops outboundTree
           [[mkSplit "POLYGON_SUSHISWAP" 30 demoMATIC;
             mkSplit "POLYGON_QUICKSWAP" 70 demoMATIC];
            [mkSplit "POLYGON_QUICKSWAP" 100 WETH]]).
  - reflexivity.
  - repeat constructor; discriminate.
Defined.

(** C9.  [getRoutes] returns the steps of [getProtocols], each with its
    name, and with its [toTokenAddress] replaced by the address of WMATIC
    when it is the address of MATIC and kept otherwise. *)
Theorem getRoutes_normalizes_native_address :
  forall MATIC WMATIC protocols route,
    getProtocols protocols = Some route ->
    exists normalized,
      getRoutes MATIC WMATIC protocols = Some normalized /\
      Forall2
        (fun step step' =>
           IRoute.name step' = IRoute.name step /\
           (IRoute.toTokenAddress step = IToken.address MATIC ->
            IRoute.toTokenAddress step' = IToken.address WMATIC) /\
           (IRoute.toTokenAddress step <> IToken.address MATIC ->
            IRoute.toTokenAddress step' = IRoute.toTokenAddress step))
        route normalized.
Proof.
  intros MATIC WMATIC protocols route H.
  unfold getRoutes. rewrite H. simpl. eexists. split; [reflexivity|].
  clear H. induction route as [|step rest IH]; simpl; constructor; auto.
  simpl. unfold replaceTokenAddress. splits; auto.
  - intros Heq. apply String.eqb_eq in Heq. rewrite Heq. reflexivity.
  - intros Hneq. apply String.eqb_neq in Hneq. rewrite Hneq. reflexivity.
Qed.

Lemma getRoutes_normalizes_native_address_witness :
  exists normalized,
    getRoutes demoMATIC demoWMATIC outboundTree = Some normalized /\
    Forall2
      (fun step step' =>
         IRoute.name step' = IRoute.name step /\
         (IRoute.toTokenAddress step = IToken.address demoMATIC ->
          IRoute.toTokenAddress step' = IToken.address demoWMATIC) /\
         (IRoute.toTokenAddress step <> IToken.address demoMATIC ->
          IRoute.toTokenAddress step' = IRoute.toTokenAddress step))
      [IRoute.mk "POLYGON_QUICKSWAP" (IToken.address demoMATIC);
       IRoute.mk "POLYGON_QUICKSWAP" (IToken.address WETH)]
      normalized.
Proof.
  apply (getRoutes_normalizes_native_address demoMATIC demoWMATIC
           outboundTree).
  reflexivity.
Defined.

(** ** Decimal strings and [parseUnits] *)

Lemma digits_fold :
  forall l acc,
    fold_left (fun acc c => 10 * acc + digit_value c) l acc =
    acc * 10 ^ Z.of_nat (List.length l) + digits_value l.
Proof.
  unfold digits_value.
  induction l as [|c l IH]; intros acc.
  - simpl. lia.
  - cbn [fold_left List.length]. rewrite IH, (IH (10 * 0 + digit_value c)).
    rewrite Nat2Z.inj_succ, Z.pow_succ_r by lia. ring.
Qed.

Lemma digits_value_app :
  forall l1 l2,
    digits_value (l1 ++ l2) =
    digits_value l1 * 10 ^ Z.of_nat (List.length l2) + digits_value l2.
Proof.
  intros l1 l2. unfold digits_value at 1. rewrite fold_left_app.
  apply digits_fold.
Qed.

Lemma digits_value_zeros :
  forall k, digits_value (repeat "0"%char k) = 0.
Proof.
  induction k as [|k IH]; [reflexivity|].
  change (repeat "0"%char (S k)) with (["0"%char] ++ repeat "0"%char k)%list.
  rewrite digits_value_app, IH. reflexivity.
Qed.

Lemma drop_zeros_spec :
  forall l, exists k, l = (repeat "0"%char k ++ drop_zeros l)%list.
Proof.
  induction l as [|c l [k IH]].
  - exists 0%nat. reflexivity.
  - simpl. destruct (Ascii.eqb_spec c "0"%char) as [->|_].
    + exists (S k). simpl. rewrite <- IH. reflexivity.
    + exists 0%nat. reflexivity.
Qed.

Lemma rev_zeros :
  forall k, rev (repeat "0"%char k) = repeat "0"%char k.
Proof.
  induction k as [|k IH]; [reflexivity|].
  simpl. rewrite IH. symmetry. apply repeat_cons.
Qed.

Lemma trim_trailing_zeros_spec :
  forall l,
    exists k, l = (trim_trailing_zeros l ++ repeat "0"%char k)%list.
Proof.
  intros l. unfold trim_trailing_zeros.
  destruct (drop_zeros_spec (rev l)) as [k Hk].
  exists k. rewrite <- (rev_involutive l) at 1.
  rewrite Hk at 1. rewrite rev_app_distr, rev_zeros. reflexivity.
Qed.

Lemma pow10_split :
  forall a b : nat, (a <= b)%nat ->
    10 ^ Z.of_nat (b - a) * 10 ^ Z.of_nat a = 10 ^ Z.of_nat b.
Proof.
  intros a b H. rewrite <- Z.pow_add_r by lia. f_equal. lia.
Qed.

(** The fraction as [parseFixed] pads it has the value of the fraction
    scaled to [decimals] places. *)
Lemma padded_fraction_value :
  forall fraction decimals,
    (List.length fraction <= decimals)%nat ->
    digits_value (pad_zeros (or_zero (trim_trailing_zeros fraction)) decimals)
    = digits_value fraction
      * 10 ^ Z.of_nat (decimals - List.length fraction).
Proof.
  intros fraction decimals Hlen.
  destruct (trim_trailing_zeros_spec fraction) as [k Hk].
  set (t := trim_trailing_zeros fraction) in *.
  assert (Hl : List.length fraction = (List.length t + k)%nat).
  { rewrite Hk at 1. rewrite length_app, repeat_length. reflexivity. }
  rewrite Hl, Hk. rewrite digits_value_app, digits_value_zeros, repeat_length.
  unfold pad_zeros. rewrite digits_value_app, digits_value_zeros, repeat_length.
  destruct t as [|c t'].
  - simpl. reflexivity.
  - cbn [or_zero]. rewrite !Z.add_0_r, <- Z.mul_assoc. f_equal.
    replace (decimals - Datatypes.length (c :: t'))%nat
      with ((decimals - (Datatypes.length (c :: t') + k)) + k)%nat by lia.
    rewrite Nat2Z.inj_add, Z.pow_add_r by lia. apply Z.mul_comm.
Qed.

Lemma trim_length :
  forall l, (List.length (trim_trailing_zeros l) <= List.length l)%nat.
Proof.
  intros l. destruct (trim_trailing_zeros_spec l) as [k Hk].
  rewrite Hk at 2. rewrite length_app. lia.
Qed.

Lemma digit_not_dot :
  forall c, is_digit c = true -> Ascii.eqb c "."%char = false.
Proof.
  intros c H. destruct (Ascii.eqb_spec c "."%char) as [->|]; [discriminate H | reflexivity].
Qed.

Lemma digit_not_minus :
  forall c, is_digit c = true -> Ascii.eqb c "-"%char = false.
Proof.
  intros c H. destruct (Ascii.eqb_spec c "-"%char) as [->|]; [discriminate H | reflexivity].
Qed.

Lemma split_dot_digits :
  forall l, forallb is_digit l = true -> split_dot l = [l].
Proof.
  induction l as [|c l IH]; intros H; [reflexivity|].
  simpl in H. apply andb_prop in H as [Hc Hl].
  simpl. rewrite (digit_not_dot c Hc), (IH Hl). reflexivity.
Qed.

Lemma split_dot_literal :
  forall whole fraction,
    forallb is_digit whole = true ->
    forallb is_digit fraction = true ->
    split_dot (whole ++ "."%char :: fraction) = [whole; fraction].
Proof.
  induction whole as [|c l IH]; intros fraction Hw Hf.
  - simpl. rewrite (split_dot_digits fraction Hf). reflexivity.
  - simpl in Hw. apply andb_prop in Hw as [Hc Hl].
    simpl. rewrite (digit_not_dot c Hc), (IH fraction Hl Hf). reflexivity.
Qed.

Lemma digits_are_digit_or_dot :
  forall l, forallb is_digit l = true -> forallb digit_or_dot l = true.
Proof.
  intros l H. rewrite forallb_forall in *. intros c Hc.
  unfold digit_or_dot. rewrite (H c Hc). reflexivity.
Qed.

Lemma chars_text : forall l, chars (text l) = l.
Proof. exact list_ascii_of_string_of_list_ascii. Qed.

Lemma parseFixed_literal :
  forall whole fraction decimals,
    literal_fits whole fraction decimals = true ->
    (decimals <= 256)%nat ->
    parseFixed (decimal_literal whole fraction) decimals =
    Some (digits_value whole * 10 ^ Z.of_nat decimals
          + digits_value fraction
            * 10 ^ Z.of_nat (decimals - List.length fraction)).
Proof.
  intros whole fraction decimals Hfits Hd.
  unfold literal_fits in Hfits.
  apply andb_prop in Hfits as [Hfits Hlen].
  apply andb_prop in Hfits as [Hfits Hf].
  apply andb_prop in Hfits as [Hne Hw].
  apply Nat.leb_le in Hlen.
  destruct whole as [|c whole']; [discriminate Hne|]. clear Hne.
  pose proof Hw as Hw'. simpl in Hw'. apply andb_prop in Hw' as [Hc _].
  unfold parseFixed, getMultiplier.
  apply Nat.leb_le in Hd. rewrite Hd.
  unfold decimal_literal. rewrite chars_text.
  destruct fraction as [|e fraction'].
  - cbn [starts_with_minus]. rewrite (digit_not_minus c Hc).
    cbn [is_empty orb]. rewrite (digits_are_digit_or_dot _ Hw).
    cbn [negb]. unfold is_lone_dot.
    assert (Hlone : match c :: whole' with
                    | [c0] => Ascii.eqb c0 "."%char
                    | _ => false end = false).
    { destruct whole'; [apply digit_not_dot; exact Hc | reflexivity]. }
    rewrite Hlone. rewrite (split_dot_digits _ Hw).
    cbn [hd or_zero]. 
    change (trim_trailing_zeros ["0"%char]) with (@nil ascii).
    cbn [List.length Nat.ltb Nat.leb or_zero]. unfold pad_zeros.
    change (["0"%char] ++ repeat "0"%char (decimals - Datatypes.length ["0"%char]))%list
      with (repeat "0"%char (S (decimals - 1))).
    rewrite digits_value_zeros. reflexivity.
  - set (fraction := e :: fraction') in *.
    assert (Hv : (c :: whole' ++ "."%char :: fraction)%list
                 = ((c :: whole') ++ "."%char :: fraction)%list) by reflexivity.
    cbn [starts_with_minus app]. rewrite (digit_not_minus c Hc).
    cbn [is_empty orb].
    assert (Hall : forallb digit_or_dot (c :: whole' ++ "."%char :: fraction) = true).
    { rewrite Hv, forallb_app. rewrite (digits_are_digit_or_dot _ Hw).
      simpl. unfold digit_or_dot at 1. simpl.
      apply (digits_are_digit_or_dot _ Hf). }
    rewrite Hall. cbn [negb].
    assert (Hlone : is_lone_dot (c :: whole' ++ "."%char :: fraction) = false).
    { unfold is_lone_dot. destruct whole'; reflexivity. }
    rewrite Hlone, Hv, (split_dot_literal _ _ Hw Hf).
    cbn [hd]. change (or_zero fraction) with fraction.
    pose proof (trim_length fraction) as Htrim.
    destruct (Nat.ltb_spec decimals (List.length (trim_trailing_zeros fraction)));
      [lia|].
    rewrite padded_fraction_value by exact Hlen. reflexivity.
Qed.

(** ** Runs of [checkArbitrage] *)

Lemma requests_app :
  forall tr1 tr2, requests (tr1 ++ tr2)%list = (requests tr1 ++ requests tr2)%list.
Proof.
  induction tr1 as [|[row color|url] tr1 IH]; intros tr2; simpl;
    rewrite ?IH; reflexivity.
Qed.

Lemma requests_row :
  forall tr row color,
    requests (tr ++ [UpdateRow row color])%list = requests tr.
Proof.
  intros. rewrite requests_app. simpl. apply app_nil_r.
Qed.

Lemma requests_request :
  forall tr url,
    requests (tr ++ [SendRequest url])%list = (requests tr ++ [url])%list.
Proof.
  intros. rewrite requests_app. reflexivity.
Qed.

Create Rewrite HintDb trace.
#[local] Hint Rewrite requests_row requests_request : trace.

Lemma getMultiplier_Some :
  forall decimals multiplier,
    getMultiplier decimals = Some multiplier -> (decimals <= 256)%nat.
Proof.
  unfold getMultiplier. intros decimals multiplier H.
  destruct (Nat.leb_spec decimals 256); [assumption | discriminate].
Qed.

Lemma parseUnits_decimals :
  forall value decimals wei,
    parseUnits value decimals = Some wei -> (decimals <= 256)%nat.
Proof.
  unfold parseUnits, parseFixed. intros value decimals wei H.
  destruct (getMultiplier decimals) eqn:Hm; [|discriminate].
  eapply getMultiplier_Some; eassumption.
Qed.

Lemma formatUnits_total :
  forall value decimals z,
    BigNumber_from value = Some z -> (decimals <= 256)%nat ->
    exists s, formatUnits value decimals = Some s.
Proof.
  intros value decimals z Hz Hd. unfold formatUnits, formatFixed, getMultiplier.
  apply Nat.leb_le in Hd. rewrite Hd, Hz. eexists; reflexivity.
Qed.

Section Runs.
Context {num : JsNumber} {ch : Chalk}.
Variable cfg : Config.t.
Variable net : network.
Variables fromToken toToken : IToken.t.

Ltac run :=
  cbv beta iota zeta delta [bind try updateRow ret sendRequest decimalAmount].

Lemma checkArbitrage_leg1_failure :
  forall tr0 amount amountDiff response log,
    baseAmount cfg fromToken = Some amount ->
    thresholdAmount cfg fromToken = Some amountDiff ->
    net (requests tr0) (firstCallURL cfg fromToken toToken amount) =
      AxiosError response ->
    failureLog response = Some log ->
    exists fromAmount,
      formatUnits (BN amount) (IToken.decimals fromToken) = Some fromAmount /\
      checkArbitrage cfg net fromToken toToken tr0 =
      (Some (mkEvaluation false None None None None None),
       (tr0 ++
        [UpdateRow (RowUpdate.only_log "") (Some (ColorName "white"));
         UpdateRow
           (RowUpdate.only_log
              ("Getting quote for " ++ IToken.symbol fromToken ++ " → " ++
               IToken.symbol toToken ++ "…")) None;
         SendRequest (firstCallURL cfg fromToken toToken amount);
         UpdateRow
           {| RowUpdate.fromToken := Some (padEnd (IToken.symbol fromToken) 6);
              RowUpdate.toToken := Some (padEnd (IToken.symbol toToken) 6);
              RowUpdate.fromAmount :=
                Some (padStart (toFixed (Number fromAmount) 2) 7);
              RowUpdate.toAmount := None;
              RowUpdate.difference := None;
              RowUpdate.percentage := None;
              RowUpdate.log := Some log |}
           (Some (ColorName "red"))])%list).
Proof.
  intros tr0 amount amountDiff response log Hbase Hthreshold Hnet Hlog.
  destruct (formatUnits_total (BN amount) (IToken.decimals fromToken) amount)
    as [fromAmount Hfmt];
    [reflexivity | eapply parseUnits_decimals; exact Hbase |].
  exists fromAmount. split; [exact Hfmt|].
  unfold checkArbitrage. run.
  rewrite Hbase, Hthreshold. run.
  autorewrite with trace.
  rewrite Hnet. run. rewrite Hfmt, Hlog.
  rewrite <- !app_assoc. reflexivity.
Qed.

Lemma from_side_ok_formats :
  forall q,
    from_side_ok q = true ->
    exists s,
      formatUnits (Raw (Quote.fromTokenAmount q))
        (IToken.decimals (Quote.fromToken q)) = Some s.
Proof.
  intros q H. unfold from_side_ok, reads_as_amount in H.
  apply andb_prop in H as [H Hd].
  destruct (BigNumber_from (Raw (Quote.fromTokenAmount q))) as [z|] eqn:Hz;
    [|discriminate].
  apply Nat.leb_le in Hd. eapply formatUnits_total; eassumption.
Qed.

Lemma to_side_ok_formats :
  forall q,
    to_side_ok q = true ->
    exists s,
      formatUnits (Raw (Quote.toTokenAmount q))
        (IToken.decimals (Quote.toToken q)) = Some s.
Proof.
  intros q H. unfold to_side_ok, reads_as_amount in H.
  apply andb_prop in H as [H Hd].
  destruct (BigNumber_from (Raw (Quote.toTokenAmount q))) as [z|] eqn:Hz;
    [|discriminate].
  apply Nat.leb_le in Hd. eapply formatUnits_total; eassumption.
Qed.

Lemma checkArbitrage_leg2_failure :
  forall tr0 amount amountDiff resultData1 response log,
    baseAmount cfg fromToken = Some amount ->
    thresholdAmount cfg fromToken = Some amountDiff ->
    net (requests tr0) (firstCallURL cfg fromToken toToken amount) =
      QuoteData resultData1 ->
    net (requests tr0 ++ [firstCallURL cfg fromToken toToken amount])%list
      (secondCallURL cfg fromToken toToken (Quote.toTokenAmount resultData1)) =
      AxiosError response ->
    from_side_ok resultData1 = true ->
    failureLog response = Some log ->
    exists fromAmount,
      formatUnits (Raw (Quote.fromTokenAmount resultData1))
        (IToken.decimals (Quote.fromToken resultData1)) = Some fromAmount /\
      checkArbitrage cfg net fromToken toToken tr0 =
      (Some (mkEvaluation false None None None None None),
       (tr0 ++
        [UpdateRow (RowUpdate.only_log "") (Some (ColorName "white"));
         UpdateRow
           (RowUpdate.only_log
              ("Getting quote for " ++ IToken.symbol fromToken ++ " → " ++
               IToken.symbol toToken ++ "…")) None;
         SendRequest (firstCallURL cfg fromToken toToken amount);
         UpdateRow
           (RowUpdate.only_log
              ("Getting quote for " ++ IToken.symbol toToken ++ " → " ++
               IToken.symbol fromToken ++ "…")) None;
         SendRequest
           (secondCallURL cfg fromToken toToken
              (Quote.toTokenAmount resultData1));
         UpdateRow
           {| RowUpdate.fromToken :=
                Some (padEnd (IToken.symbol (Quote.fromToken resultData1)) 6);
              RowUpdate.toToken := Some (padEnd (IToken.symbol toToken) 6);
              RowUpdate.fromAmount :=
                Some (padStart (toFixed (Number fromAmount) 2) 7);
              RowUpdate.toAmount := None;
              RowUpdate.difference := None;
              RowUpdate.percentage := None;
              RowUpdate.log := Some log |}
           (Some (ColorName "red"))])%list).
Proof.
  intros tr0 amount amountDiff resultData1 response log
    Hbase Hthreshold Hnet1 Hnet2 Hok Hlog.
  destruct (from_side_ok_formats _ Hok) as [fromAmount Hfmt].
  exists fromAmount. split; [exact Hfmt|].
  unfold checkArbitrage. run.
  rewrite Hbase, Hthreshold. run.
  autorewrite with trace.
  rewrite Hnet1. run.
  autorewrite with trace.
  rewrite Hnet2. run. rewrite Hfmt, Hlog.
  rewrite <- !app_assoc. reflexivity.
Qed.

Lemma checkArbitrage_both_legs :
  forall tr0 amount amountDiff resultData1 resultData2 resultAmount,
    baseAmount cfg fromToken = Some amount ->
    thresholdAmount cfg fromToken = Some amountDiff ->
    net (requests tr0) (firstCallURL cfg fromToken toToken amount) =
      QuoteData resultData1 ->
    net (requests tr0 ++ [firstCallURL cfg fromToken toToken amount])%list
      (secondCallURL cfg fromToken toToken (Quote.toTokenAmount resultData1)) =
      QuoteData resultData2 ->
    from_side_ok resultData1 = true ->
    to_side_ok resultData2 = true ->
    BigNumber_from (Raw (Quote.toTokenAmount resultData2)) =
      Some resultAmount ->
    exists fromAmount toAmount,
      formatUnits (Raw (Quote.fromTokenAmount resultData1))
        (IToken.decimals (Quote.fromToken resultData1)) = Some fromAmount /\
      formatUnits (Raw (Quote.toTokenAmount resultData2))
        (IToken.decimals (Quote.toToken resultData2)) = Some toAmount /\
      let difference := sub (Number toAmount) (Number fromAmount) in
      let percentage :=
        mul (div difference (Number fromAmount)) (lit 100) in
      checkArbitrage cfg net fromToken toToken tr0 =
      (Some
         (mkEvaluation (amountDiff <? resultAmount)
            (Some (Quote.protocols resultData1))
            (Some (Quote.protocols resultData2))
            (Some (toFixed (Number toAmount) 2))
            (Some (chalkDifference cfg difference))
            (Some (chalkPercentage percentage))),
       (tr0 ++
        [UpdateRow (RowUpdate.only_log "") (Some (ColorName "white"));
         UpdateRow
           (RowUpdate.only_log
              ("Getting quote for " ++ IToken.symbol fromToken ++ " → " ++
               IToken.symbol toToken ++ "…")) None;
         SendRequest (firstCallURL cfg fromToken toToken amount);
         UpdateRow
           (RowUpdate.only_log
              ("Getting quote for " ++ IToken.symbol toToken ++ " → " ++
               IToken.symbol fromToken ++ "…")) None;
         SendRequest
           (secondCallURL cfg fromToken toToken
              (Quote.toTokenAmount resultData1));
         UpdateRow
           {| RowUpdate.fromToken :=
                Some (padEnd (IToken.symbol (Quote.fromToken resultData1)) 6);
              RowUpdate.toToken :=
                Some (padEnd (IToken.symbol (Quote.toToken resultData1)) 6);
              RowUpdate.fromAmount :=
                Some (padStart (toFixed (Number fromAmount) 2) 7);
              RowUpdate.toAmount := Some (padStart (toFixed (Number toAmount) 2) 7);
              RowUpdate.difference :=
                Some (padStart (chalkDifference cfg difference) 7);
              RowUpdate.percentage :=
                Some (padStart (chalkPercentage percentage) 5);
              RowUpdate.log := Some "" |}
           (Some (ColorFlag (amountDiff <? resultAmount)))])%list).
Proof.
  intros tr0 amount amountDiff resultData1 resultData2 resultAmount
    Hbase Hthreshold Hnet1 Hnet2 Hok1 Hok2 Hresult.
  destruct (from_side_ok_formats _ Hok1) as [fromAmount Hfrom].
  destruct (to_side_ok_formats _ Hok2) as [toAmount Hto].
  exists fromAmount, toAmount. split; [exact Hfrom|]. split; [exact Hto|].
  cbv zeta. unfold checkArbitrage. run.
  rewrite Hbase, Hthreshold. run.
  autorewrite with trace.
  rewrite Hnet1. run.
  autorewrite with trace.
  rewrite Hnet2. run. rewrite Hresult. run. rewrite Hfrom, Hto.
  rewrite <- !app_assoc. reflexivity.
Qed.

(** X20.  When the first request fails and the log of the failure can be
    built (the error has no response, or its response has a [data] to read
    [error] from), [checkArbitrage] resolves to [[false, null, null]] and
    the evaluation has issued the first request and no other. *)
Theorem leg1_failure_short_circuits :
  forall tr0 amount amountDiff response log,
    baseAmount cfg fromToken = Some amount ->
    thresholdAmount cfg fromToken = Some amountDiff ->
    net (requests tr0) (firstCallURL cfg fromToken toToken amount) =
      AxiosError response ->
    failureLog response = Some log ->
    exists ev tr,
      checkArbitrage cfg net fromToken toToken tr0 = (Some ev, tr) /\
      isProfitable ev = false /\
      firstProtocols ev = None /\
      secondProtocols ev = None /\
      requests tr =
        (requests tr0 ++ [firstCallURL cfg fromToken toToken amount])%list.
Proof.
  intros tr0 amount amountDiff response log Hbase Hthreshold Hnet Hlog.
  destruct (checkArbitrage_leg1_failure _ _ _ _ _ Hbase Hthreshold Hnet Hlog)
    as (fromAmount & _ & Hrun).
  do 2 eexists. split; [exact Hrun|]. splits; try reflexivity.
  rewrite requests_app. reflexivity.
Qed.


(** C7.  When the first request succeeds, the evaluation issues a second
    request, whatever happens after it, and the [amount] of its URL is the
    [toTokenAmount] string of the first quote, character for character. *)
Theorem leg2_input_is_leg1_result :
  forall tr0 amount amountDiff resultData1,
    baseAmount cfg fromToken = Some amount ->
    thresholdAmount cfg fromToken = Some amountDiff ->
    net (requests tr0) (firstCallURL cfg fromToken toToken amount) =
      QuoteData resultData1 ->
    requests (snd (checkArbitrage cfg net fromToken toToken tr0)) =
      (requests tr0 ++
       [firstCallURL cfg fromToken toToken amount;
        ("https://api.1inch.exchange/v4.0/" ++
         string_of_N (Config.chainId cfg) ++
         "/quote?fromTokenAddress=" ++ IToken.address toToken ++
         "&toTokenAddress=" ++ IToken.address fromToken ++
         "&amount=" ++ Quote.toTokenAmount resultData1 ++
         "&mainRouteParts=50&protocols=" ++ Config.protocols cfg)%string])%list.
Proof.
  intros tr0 amount amountDiff resultData1 Hbase Hthreshold Hnet1.
  unfold checkArbitrage. run.
  rewrite Hbase, Hthreshold. run.
  autorewrite with trace. rewrite Hnet1. run.
  match goal with
  | |- context [net ?h ?u] => destruct (net h u) as [resultData2|response]
  end; run.
  - destruct (BigNumber_from (Raw (Quote.toTokenAmount resultData2)));
      run;
      [destruct (formatUnits (Raw (Quote.fromTokenAmount resultData1)) _);
       run;
       [destruct (formatUnits (Raw (Quote.toTokenAmount resultData2)) _);
        run|]|];
      simpl snd; autorewrite with trace; rewrite <- app_assoc; reflexivity.
  - destruct (formatUnits (Raw (Quote.fromTokenAmount resultData1)) _); run;
      [destruct (failureLog response); run|];
      simpl snd; autorewrite with trace; rewrite <- app_assoc; reflexivity.
Qed.

(** X21.  When a request fails and the log of the failure can be built,
    the last row the evaluation writes is red and carries that log, and the
    evaluation resolves to [isProfitable = false].  The log is the empty
    string when the error carries no response; when it carries one whose
    [data] can be read, it is the status, a colon, the status text and, in
    brackets, the error message, or [undefined] where [data] has none. *)
Theorem failed_leg_log :
  forall tr0 amount amountDiff resultData1 response log,
    baseAmount cfg fromToken = Some amount ->
    thresholdAmount cfg fromToken = Some amountDiff ->
    net (requests tr0) (firstCallURL cfg fromToken toToken amount) =
      AxiosError response
    \/
    (net (requests tr0) (firstCallURL cfg fromToken toToken amount) =
       QuoteData resultData1 /\
     from_side_ok resultData1 = true /\
     net (requests tr0 ++ [firstCallURL cfg fromToken toToken amount])%list
       (secondCallURL cfg fromToken toToken
          (Quote.toTokenAmount resultData1)) =
       AxiosError response) ->
    failureLog response = Some log ->
    (exists ev before row,
        checkArbitrage cfg net fromToken toToken tr0 =
          (Some ev,
           (before ++ [UpdateRow row (Some (ColorName "red"))])%list) /\
        isProfitable ev = false /\
        RowUpdate.log row = Some log) /\
    (response = None -> log = "") /\
    (forall r d,
        response = Some r -> ErrorResponse.data r = Some d ->
        log =
          string_of_N (ErrorResponse.status r) ++ ": " ++
          ErrorResponse.statusText r ++ " (" ++
          match ErrorData.error d with
          | Some message => message
          | None => "undefined"
          end ++ ")").
Proof.
  intros tr0 amount amountDiff resultData1 response log Hbase Hthreshold
    Hfail Hlog.
  split; [|split].
  - destruct Hfail as [Hnet1|(Hnet1 & Hok & Hnet2)].
    + destruct (checkArbitrage_leg1_failure _ _ _ _ _
                  Hbase Hthreshold Hnet1 Hlog)
        as (fromAmount & _ & Hrun).
      eexists _, (tr0 ++ [_; _; _])%list, _.
      rewrite <- app_assoc. split; [exact Hrun|].
      split; reflexivity.
    + destruct (checkArbitrage_leg2_failure _ _ _ _ _ _
                  Hbase Hthreshold Hnet1 Hnet2 Hok Hlog)
        as (fromAmount & _ & Hrun).
      eexists _, (tr0 ++ [_; _; _; _; _])%list, _.
      rewrite <- app_assoc. split; [exact Hrun|].
      split; reflexivity.
  - intros ->. unfold failureLog in Hlog. injection Hlog as <-. reflexivity.
  - intros r d -> Hd. unfold failureLog in Hlog. rewrite Hd in Hlog.
    injection Hlog as <-. reflexivity.
Qed.

(** C3, as amended.  When both requests succeed, the second and third
    places of the result are the [protocols] of the first and of the second
    quote as the provider sent them.  [getProtocols] is a function of its
    own; where it returns on either of them, it returns one step per hop of
    the first route, the step of the split [getMaxPart] selects. *)
Theorem returned_routes_are_the_quotes_protocols :
  forall tr0 amount amountDiff resultData1 resultData2 resultAmount,
    baseAmount cfg fromToken = Some amount ->
    thresholdAmount cfg fromToken = Some amountDiff ->
    net (requests tr0) (firstCallURL cfg fromToken toToken amount) =
      QuoteData resultData1 ->
    net (requests tr0 ++ [firstCallURL cfg fromToken toToken amount])%list
      (secondCallURL cfg fromToken toToken (Quote.toTokenAmount resultData1)) =
      QuoteData resultData2 ->
    from_side_ok resultData1 = true ->
    to_side_ok resultData2 = true ->
    BigNumber_from (Raw (Quote.toTokenAmount resultData2)) =
      Some resultAmount ->
    exists ev tr,
      checkArbitrage cfg net fromToken toToken tr0 = (Some ev, tr) /\
      firstProtocols ev = Some (Quote.protocols resultData1) /\
      secondProtocols ev = Some (Quote.protocols resultData2) /\
      forall protocols route,
        protocols = Quote.protocols resultData1 \/
        protocols = Quote.protocols resultData2 ->
        getProtocols protocols = Some route ->
        exists mainRoute,
          nth_error protocols 0 = Some mainRoute /\
          Forall2 step_of_hop mainRoute route.
Proof.
  intros tr0 amount amountDiff resultData1 resultData2 resultAmount
    Hbase Hthreshold Hnet1 Hnet2 Hok1 Hok2 Hresult.
  destruct (checkArbitrage_both_legs _ _ _ _ _ _
              Hbase Hthreshold Hnet1 Hnet2 Hok1 Hok2 Hresult)
    as (fromAmount & toAmount & _ & _ & Hrun).
  do 2 eexists. split; [exact Hrun|]. splits; try reflexivity.
  intros protocols route _. apply getProtocols_one_step_per_hop.
Qed.

End Runs.

(** ** The base amount and the threshold *)

(** C6.  Where the loan prints as the decimal [w.f] and the loan plus the
    margin as [w'.f'], neither with more places than the source token has
    decimals, [amount] and [amountDiff] are those decimals times
    [10 ^ decimals]: the digits of [w.f], which stand for the value times
    [10 ^ length f], times [10 ^ decimals] are [amount] times
    [10 ^ length f], and the same for [amountDiff].  With 18 decimals, a
    loan printed 10 and a loan plus margin printed 10.5, [amount] is
    [10 ^ 19] and [amountDiff] is [105 * 10 ^ 17]. *)
Theorem amounts_scaled_by_fromToken_decimals :
  (forall (num : JsNumber) (cfg : Config.t) (fromToken : IToken.t)
          (w f w' f' : list ascii),
      let decimals := IToken.decimals fromToken in
      (decimals <= 256)%nat ->
      toString (Config.loanAmount cfg) = decimal_literal w f ->
      toString (add (Config.loanAmount cfg) (Config.diffAmount cfg)) =
        decimal_literal w' f' ->
      literal_fits w f decimals = true ->
      literal_fits w' f' decimals = true ->
      exists amount amountDiff,
        baseAmount cfg fromToken = Some amount /\
        thresholdAmount cfg fromToken = Some amountDiff /\
        amount * 10 ^ Z.of_nat (List.length f) =
          digits_value (w ++ f) * 10 ^ Z.of_nat decimals /\
        amountDiff * 10 ^ Z.of_nat (List.length f') =
          digits_value (w' ++ f') * 10 ^ Z.of_nat decimals)
  /\
  (forall (num : JsNumber) (cfg : Config.t) (fromToken : IToken.t),
      IToken.decimals fromToken = 18%nat ->
      toString (Config.loanAmount cfg) = "10" ->
      toString (add (Config.loanAmount cfg) (Config.diffAmount cfg)) =
        "10.5" ->
      baseAmount cfg fromToken = Some (10 ^ 19) /\
      thresholdAmount cfg fromToken = Some (105 * 10 ^ 17)).
Proof.
  split.
  - intros num cfg fromToken w f w' f' decimals Hd Hloan Hsum Hfits Hfits'.
    unfold baseAmount, thresholdAmount, parseUnits. fold decimals.
    rewrite Hloan, Hsum, !parseFixed_literal by assumption.
    do 2 eexists. split; [reflexivity|]. split; [reflexivity|].
    unfold literal_fits in Hfits, Hfits'.
    apply andb_prop in Hfits as [_ Hlen], Hfits' as [_ Hlen'].
    apply Nat.leb_le in Hlen, Hlen'.
    rewrite !digits_value_app, !Z.mul_add_distr_r.
    rewrite <- !Z.mul_assoc, !pow10_split by assumption.
    split; ring.
  - intros num cfg fromToken Hd Hloan Hsum.
    unfold baseAmount, thresholdAmount. rewrite Hd, Hloan, Hsum.
    split; reflexivity.
Qed.

(** ** The scenario of the specification, run *)

Lemma amounts_scaled_by_fromToken_decimals_witness :
  exists amount amountDiff,
    baseAmount demoConfig DAI = Some amount /\
    thresholdAmount demoConfig DAI = Some amountDiff /\
    amount * 10 ^ 0 = 10 * 10 ^ 18 /\
    amountDiff * 10 ^ 1 = 105 * 10 ^ 18.
Proof.
  apply (proj1 amounts_scaled_by_fromToken_decimals DecimalNumber demoConfig
           DAI (chars "10") [] (chars "10") (chars "5"));
    [simpl; lia | reflexivity | reflexivity | reflexivity | reflexivity].
Defined.


Lemma leg1_failure_short_circuits_witness :
  exists ev tr,
    checkArbitrage demoConfig net_leg1_fails DAI WETH [] = (Some ev, tr) /\
    isProfitable ev = false /\
    firstProtocols ev = None /\
    secondProtocols ev = None /\
    requests tr = [firstCallURL demoConfig DAI WETH 10000000000000000000].
Proof.
  apply (@leg1_failure_short_circuits DecimalNumber PlainChalk demoConfig
           net_leg1_fails DAI WETH [] 10000000000000000000
           10500000000000000000 (Some badRequest)
           "400: Bad Request (insufficient liquidity)");
    reflexivity.
Defined.

Lemma leg2_input_is_leg1_result_witness :
  requests (snd (checkArbitrage demoConfig net_both_legs DAI WETH [])) =
  [firstCallURL demoConfig DAI WETH 10000000000000000000;
   "https://api.1inch.exchange/v4.0/137/quote?fromTokenAddress=0x7ceB23fD6bC0adD59E62ac25578270cFf1b9f619&toTokenAddress=0x8f3Cf7ad23Cd3CaDbD9735AFf958023239c6A063&amount=10600000000000000000&mainRouteParts=50&protocols=POLYGON_SUSHISWAP,POLYGON_QUICKSWAP"].
Proof.
  apply (@leg2_input_is_leg1_result DecimalNumber PlainChalk demoConfig
           net_both_legs DAI WETH [] 10000000000000000000
           10500000000000000000 quote1);
    reflexivity.
Defined.

Lemma failed_leg_log_witness :
  exists ev before row,
    checkArbitrage demoConfig net_leg2_fails DAI WETH [] =
      (Some ev, (before ++ [UpdateRow row (Some (ColorName "red"))])%list) /\
    isProfitable ev = false /\
    RowUpdate.log row = Some "400: Bad Request (insufficient liquidity)".
Proof.
  apply (@failed_leg_log DecimalNumber PlainChalk demoConfig net_leg2_fails
           DAI WETH [] 10000000000000000000 10500000000000000000 quote1
           (Some badRequest) "400: Bad Request (insufficient liquidity)");
    [reflexivity | reflexivity | right; splits; reflexivity | reflexivity].
Defined.

(** C2 on a failure that brings a response without [data] (a 502 with no
    body to read [error] from): the first request is issued and no other,
    but reading [e.response.data.error] throws before the red row is
    written, and [checkArbitrage] rejects where [[false, null, null]] was
    to be returned. *)
Theorem leg1_failure_without_data_throws :
  exists tr,
    checkArbitrage demoConfig net_leg1_no_data DAI WETH [] = (None, tr) /\
    requests tr = [firstCallURL demoConfig DAI WETH 10000000000000000000] /\
    map RowUpdate.log (rowUpdates tr) =
      [Some ""; Some "Getting quote for DAI → WETH…"].
Proof.
  eexists. split; [vm_compute; reflexivity|].
  split; vm_compute; reflexivity.
Qed.

(** C8 on the same kind of failure at the second request: both requests
    are issued, the rows written are the reset and the two progress logs,
    and the run throws without writing any log for the failed leg. *)
Theorem leg2_failure_without_data_writes_no_log :
  exists tr,
    checkArbitrage demoConfig net_leg2_no_data DAI WETH [] = (None, tr) /\
    requests tr =
      [firstCallURL demoConfig DAI WETH 10000000000000000000;
       secondCallURL demoConfig DAI WETH "10600000000000000000"] /\
    map RowUpdate.log (rowUpdates tr) =
      [Some ""; Some "Getting quote for DAI → WETH…";
       Some "Getting quote for WETH → DAI…"].
Proof.
  eexists. split; [vm_compute; reflexivity|].
  split; vm_compute; reflexivity.
Qed.

Lemma returned_routes_are_the_quotes_protocols_witness :
  exists ev tr,
    checkArbitrage demoConfig net_both_legs DAI WETH [] = (Some ev, tr) /\
    firstProtocols ev = Some outboundTree /\
    secondProtocols ev = Some returnTree /\
    forall protocols route,
      protocols = outboundTree \/ protocols = returnTree ->
      getProtocols protocols = Some route ->
      exists mainRoute,
        nth_error protocols 0 = Some mainRoute /\
        Forall2 step_of_hop mainRoute route.
Proof.
  apply (@returned_routes_are_the_quotes_protocols DecimalNumber PlainChalk
           demoConfig net_both_legs DAI WETH [] 10000000000000000000
           10500000000000000000 quote1 quote2 10700000000000000000);
    reflexivity.
Defined.

(** C3 as it is stated fails: in the run of the scenario both requests
    succeed, [getProtocols] flattens the first quote's [protocols] to two
    steps, and the second place of the result is the nested structure
    itself, a different value. *)
Lemma returned_route_is_not_the_flattened_route :
  exists ev tr route,
    checkArbitrage demoConfig net_both_legs DAI WETH [] = (Some ev, tr) /\
    getProtocols (Quote.protocols quote1) = Some route /\
    value_of_place (firstProtocols ev) =
      value_of_tree (Quote.protocols quote1) /\
    value_of_place (firstProtocols ev) <> value_of_route route.
Proof.
  do 3 eexists. split; [vm_compute; reflexivity|].
  split; [vm_compute; reflexivity|].
  split; [reflexivity|].
  vm_compute. intros H. discriminate H.
Qed.

(** * Further properties *)

(** ** Every run of [checkArbitrage] *)

Ltac unfold_run :=
  cbv beta iota zeta delta [bind try updateRow ret sendRequest decimalAmount].

(** Splits a run into its paths: one case per outcome of each library call
    and of each request. *)
Ltac run_paths :=
  unfold checkArbitrage; unfold_run;
  repeat (autorewrite with trace;
          match goal with
          | |- context [match ?x with _ => _ end] =>
              lazymatch x with
              | context [match _ with _ => _ end] => fail
              | _ => destruct x eqn:?
              end
          end;
          unfold_run).

Section AllRuns.

Context {num : JsNumber} {ch : Chalk}.
Variable cfg : Config.t.
Variable net : network.
Variables fromToken toToken : IToken.t.

(** X2.  A run of [checkArbitrage], whether it returns or throws, leaves the
    effects before it as they are and adds its own after them, the first of
    which is the row reset. *)
Theorem checkArbitrage_appends_after_reset :
  forall tr0,
    exists suffix,
      snd (checkArbitrage cfg net fromToken toToken tr0) =
      (tr0 ++ resetRow :: suffix)%list.
Proof.
  intros tr0. unfold resetRow. run_paths; cbn [snd];
    rewrite <- ?app_assoc; eexists; reflexivity.
Qed.


(** X3.  The requests of a run: none when [parseUnits] throws on the loan or
    on the loan plus the margin; the first URL alone when the first request
    fails; the first URL and then the second, which carries the first
    quote's [toTokenAmount], when the first request succeeds.  There is
    never a third. *)
Theorem requests_issued_by_a_run :
  forall tr0,
    let tr := snd (checkArbitrage cfg net fromToken toToken tr0) in
    ((baseAmount cfg fromToken = None \/
      thresholdAmount cfg fromToken = None) /\
     requests tr = requests tr0)
    \/
    (exists amount response,
        baseAmount cfg fromToken = Some amount /\
        net (requests tr0) (firstCallURL cfg fromToken toToken amount) =
          AxiosError response /\
        requests tr =
          (requests tr0 ++ [firstCallURL cfg fromToken toToken amount])%list)
    \/
    (exists amount resultData1,
        baseAmount cfg fromToken = Some amount /\
        net (requests tr0) (firstCallURL cfg fromToken toToken amount) =
          QuoteData resultData1 /\
        requests tr =
          (requests tr0 ++
           [firstCallURL cfg fromToken toToken amount;
            secondCallURL cfg fromToken toToken
              (Quote.toTokenAmount resultData1)])%list).
Proof.
  intros tr0. cbn zeta. run_paths; cbn [snd]; autorewrite with trace;
    rewrite <- ?app_assoc;
    first
      [ left; split; [auto | reflexivity]
      | right; left; do 2 eexists; splits;
        [reflexivity | eassumption | reflexivity]
      | right; right; do 2 eexists; splits;
        [reflexivity | eassumption | reflexivity] ].
Qed.

(** X4.  Whenever [checkArbitrage] returns, its result is all or nothing:
    either both routes and the three display strings are present, or none
    of them is and [isProfitable] is false. *)
Theorem result_is_all_or_nothing :
  forall tr0 ev tr,
    checkArbitrage cfg net fromToken toToken tr0 = (Some ev, tr) ->
    ev = mkEvaluation false None None None None None
    \/
    (exists first second amount diff percent,
        ev = mkEvaluation (isProfitable ev) (Some first) (Some second)
               (Some amount) (Some diff) (Some percent)).
Proof.
  intros tr0 ev tr. run_paths; intros H; try discriminate H;
    injection H as <- _.
  - right. do 5 eexists. reflexivity.
  - left. reflexivity.
  - left. reflexivity.
Qed.

(** X5.  When [parseUnits] throws on the loan, or on the loan plus the
    margin, [checkArbitrage] throws after the row reset: it writes nothing
    else and issues no request. *)
Theorem unparsable_amount_throws_before_any_request :
  forall tr0,
    baseAmount cfg fromToken = None \/
    thresholdAmount cfg fromToken = None ->
    checkArbitrage cfg net fromToken toToken tr0 =
      (None, (tr0 ++ [resetRow])%list).
Proof.
  intros tr0 H. unfold checkArbitrage, resetRow. unfold_run.
  destruct (baseAmount cfg fromToken) as [amount|]; unfold_run.
  - destruct H as [H|H]; [discriminate H|]. rewrite H. reflexivity.
  - reflexivity.
Qed.

(** X6.  When the first request succeeds and the second fails,
    [BigNumber.from] reads the first quote's [fromTokenAmount], its
    [fromToken]'s decimals are at most 256, and the log of the failure can
    be built (no response, or a response with a [data]), [checkArbitrage]
    resolves to [[false, null, null]] after exactly the two requests. *)
Theorem leg2_failure_result :
  forall tr0 amount amountDiff resultData1 response log,
    baseAmount cfg fromToken = Some amount ->
    thresholdAmount cfg fromToken = Some amountDiff ->
    net (requests tr0) (firstCallURL cfg fromToken toToken amount) =
      QuoteData resultData1 ->
    net (requests tr0 ++ [firstCallURL cfg fromToken toToken amount])%list
      (secondCallURL cfg fromToken toToken (Quote.toTokenAmount resultData1)) =
      AxiosError response ->
    from_side_ok resultData1 = true ->
    failureLog response = Some log ->
    exists tr,
      checkArbitrage cfg net fromToken toToken tr0 =
        (Some (mkEvaluation false None None None None None), tr) /\
      requests tr =
        (requests tr0 ++
         [firstCallURL cfg fromToken toToken amount;
          secondCallURL cfg fromToken toToken
            (Quote.toTokenAmount resultData1)])%list.
Proof.
  intros tr0 amount amountDiff resultData1 response log
    Hbase Hthreshold Hnet1 Hnet2 Hok Hlog.
  destruct (checkArbitrage_leg2_failure cfg net fromToken toToken _ _ _ _ _ _
              Hbase Hthreshold Hnet1 Hnet2 Hok Hlog)
    as (fromAmount & _ & Hrun).
  eexists. split; [exact Hrun|].
  rewrite requests_app. reflexivity.
Qed.

(** X7.  When both requests succeed, the last row written has the empty
    log, its colour is the boolean [isProfitable] itself (the source passes
    [isProfitable ?? "green"]), and its amount, difference and percentage
    cells are the three strings of the result, padded at the start to 7, 7
    and 5 characters. *)
Theorem success_row_shows_the_result :
  forall tr0 amount amountDiff resultData1 resultData2 resultAmount,
    baseAmount cfg fromToken = Some amount ->
    thresholdAmount cfg fromToken = Some amountDiff ->
    net (requests tr0) (firstCallURL cfg fromToken toToken amount) =
      QuoteData resultData1 ->
    net (requests tr0 ++ [firstCallURL cfg fromToken toToken amount])%list
      (secondCallURL cfg fromToken toToken (Quote.toTokenAmount resultData1)) =
      QuoteData resultData2 ->
    from_side_ok resultData1 = true ->
    to_side_ok resultData2 = true ->
    BigNumber_from (Raw (Quote.toTokenAmount resultData2)) =
      Some resultAmount ->
    exists ev before row,
      checkArbitrage cfg net fromToken toToken tr0 =
        (Some ev,
         (before ++ [UpdateRow row (Some (ColorFlag (isProfitable ev)))])%list)
      /\
      RowUpdate.log row = Some "" /\
      RowUpdate.toAmount row =
        option_map (fun s => padStart s 7) (toAmount ev) /\
      RowUpdate.difference row =
        option_map (fun s => padStart s 7) (difference ev) /\
      RowUpdate.percentage row =
        option_map (fun s => padStart s 5) (percentage ev).
Proof.
  intros tr0 amount amountDiff resultData1 resultData2 resultAmount
    Hbase Hthreshold Hnet1 Hnet2 Hok1 Hok2 Hresult.
  destruct (checkArbitrage_both_legs cfg net fromToken toToken _ _ _ _ _ _
              Hbase Hthreshold Hnet1 Hnet2 Hok1 Hok2 Hresult)
    as (fromAmount & toAmount & _ & _ & Hrun).
  cbn zeta in Hrun.
  eexists _, (tr0 ++ [_; _; _; _; _])%list, _.
  rewrite <- app_assoc. split; [exact Hrun|].
  splits; reflexivity.
Qed.

(** X8.  When the first request succeeds and [BigNumber.from] cannot read
    the first quote's [fromTokenAmount], or the second request succeeds and
    it cannot read the second quote's [toTokenAmount], [checkArbitrage]
    throws: both requests have been issued and there is no result. *)
Theorem unreadable_quote_amount_throws :
  forall tr0 amount amountDiff resultData1 resultData2,
    baseAmount cfg fromToken = Some amount ->
    thresholdAmount cfg fromToken = Some amountDiff ->
    net (requests tr0) (firstCallURL cfg fromToken toToken amount) =
      QuoteData resultData1 ->
    reads_as_amount (Quote.fromTokenAmount resultData1) = false
    \/
    (net (requests tr0 ++ [firstCallURL cfg fromToken toToken amount])%list
       (secondCallURL cfg fromToken toToken
          (Quote.toTokenAmount resultData1)) =
       QuoteData resultData2 /\
     reads_as_amount (Quote.toTokenAmount resultData2) = false) ->
    exists tr,
      checkArbitrage cfg net fromToken toToken tr0 = (None, tr) /\
      requests tr =
        (requests tr0 ++
         [firstCallURL cfg fromToken toToken amount;
          secondCallURL cfg fromToken toToken
            (Quote.toTokenAmount resultData1)])%list.
Proof.
  intros tr0 amount amountDiff resultData1 resultData2
    Hbase Hthreshold Hnet1 H.
  assert (Hfmt : forall s decimals,
             reads_as_amount s = false -> formatUnits (Raw s) decimals = None).
  { intros s decimals Hs. unfold reads_as_amount in Hs.
    unfold formatUnits, formatFixed.
    destruct (BigNumber_from (Raw s)); [discriminate Hs|].
    destruct (getMultiplier decimals); reflexivity. }
  unfold checkArbitrage. unfold_run.
  rewrite Hbase, Hthreshold. unfold_run.
  autorewrite with trace. rewrite Hnet1. unfold_run.
  autorewrite with trace.
  destruct H as [Hfrom|(Hnet2 & Hto)].
  - match goal with
    | |- context [net ?h ?u] => destruct (net h u) as [q2|response]
    end; unfold_run.
    + destruct (BigNumber_from (Raw (Quote.toTokenAmount q2))); unfold_run;
        rewrite ?(Hfmt _ _ Hfrom); eexists; (split; [reflexivity|]);
        autorewrite with trace; rewrite <- app_assoc; reflexivity.
    + rewrite (Hfmt _ _ Hfrom). eexists. split; [reflexivity|].
      autorewrite with trace. rewrite <- app_assoc. reflexivity.
  - rewrite Hnet2. unfold_run. unfold reads_as_amount in Hto.
    destruct (BigNumber_from (Raw (Quote.toTokenAmount resultData2)));
      [discriminate Hto|].
    eexists. split; [reflexivity|].
    autorewrite with trace. rewrite <- app_assoc. reflexivity.
Qed.

End AllRuns.

(** ** Padding *)

Lemma js_length_append :
  forall s1 s2 : string,
    js_length (s1 ++ s2) = (js_length s1 + js_length s2)%nat.
Proof.
  induction s1 as [|c s1 IH]; intros s2; simpl; [|rewrite IH; lia];
    reflexivity.
Qed.

Lemma js_length_spaces : forall n, js_length (spaces n) = n.
Proof.
  induction n as [|n IH]; [reflexivity|].
  cbn [spaces js_length]. rewrite IH. reflexivity.
Qed.

Lemma padEnd_length :
  forall s n, js_length (padEnd s n) = Nat.max n (js_length s).
Proof.
  intros s n. unfold padEnd. rewrite js_length_append, js_length_spaces. lia.
Qed.

Lemma padStart_length :
  forall s n, js_length (padStart s n) = Nat.max n (js_length s).
Proof.
  intros s n. unfold padStart. rewrite js_length_append, js_length_spaces.
  lia.
Qed.

Lemma rowUpdates_app :
  forall tr1 tr2,
    rowUpdates (tr1 ++ tr2)%list = (rowUpdates tr1 ++ rowUpdates tr2)%list.
Proof.
  induction tr1 as [|[row color|url] tr1 IH]; intros tr2; simpl;
    rewrite ?IH; reflexivity.
Qed.

Section Padding.

Context {num : JsNumber} {ch : Chalk}.
Variable cfg : Config.t.
Variable net : network.
Variables fromToken toToken : IToken.t.

(** X9.  Every cell of every row a run writes is at least as wide as its
    column, in the UTF-16 code units [padEnd] and [padStart] count: 6 for a
    symbol, 7 for an amount or a difference, 5 for a percentage.  Rows that were padded before the run stay so after
    it. *)
Theorem every_row_written_is_padded :
  forall tr0,
    Forall row_padded (rowUpdates tr0) ->
    Forall row_padded
      (rowUpdates (snd (checkArbitrage cfg net fromToken toToken tr0))).
Proof.
  intros tr0 H0.
  assert (Hsnoc : forall tr row color,
             Forall row_padded (rowUpdates tr) -> row_padded row ->
             Forall row_padded (rowUpdates (tr ++ [UpdateRow row color])%list)).
  { intros tr row color Htr Hrow. rewrite rowUpdates_app.
    apply Forall_app. split; [exact Htr|].
    simpl. constructor; [exact Hrow | constructor]. }
  assert (Hreq : forall tr url,
             Forall row_padded (rowUpdates tr) ->
             Forall row_padded (rowUpdates (tr ++ [SendRequest url])%list)).
  { intros tr url Htr. rewrite rowUpdates_app. simpl.
    rewrite app_nil_r. exact Htr. }
  assert (Hlog : forall s, row_padded (RowUpdate.only_log s)).
  { intros s. unfold row_padded. simpl. tauto. }
  run_paths; cbn [snd];
    repeat first [ apply Hsnoc | apply Hreq | apply Hlog | exact H0 ];
    unfold row_padded, cell_wide; cbn [RowUpdate.fromToken RowUpdate.toToken
      RowUpdate.fromAmount RowUpdate.toAmount RowUpdate.difference
      RowUpdate.percentage];
    rewrite ?padEnd_length, ?padStart_length; splits; auto; lia.
Qed.

End Padding.

(** ** More on the dominant split *)

Lemma maxPartKey_in_bounds :
  forall onehop,
    onehop <> [] -> (maxPartKey onehop < List.length onehop)%nat.
Proof.
  intros onehop Hne. unfold maxPartKey.
  destruct (forEach_maxPart_spec onehop 0 0 0)
    as [(_ & Hk & _)|(j & p & Hk & Hn & _)].
  - rewrite Hk. destruct onehop; [congruence | simpl; lia].
  - rewrite Hk. simpl. apply nth_error_Some. congruence.
Qed.

Lemma getMaxPart_None :
  forall onehop, getMaxPart onehop = None -> onehop = [].
Proof.
  intros [|p rest] Hnone; [reflexivity|].
  unfold getMaxPart in Hnone. apply nth_error_None in Hnone.
  assert (p :: rest <> []) as Hne by discriminate.
  apply maxPartKey_in_bounds in Hne. lia.
Qed.

(** X10.  [getMaxPart] returns [undefined] on the empty hop and on no other;
    what it returns otherwise is a split of the hop, at a position inside
    the hop. *)
Theorem getMaxPart_selects_a_member :
  forall onehop,
    (getMaxPart onehop = None <-> onehop = []) /\
    (forall p,
        getMaxPart onehop = Some p ->
        In p onehop /\ (maxPartKey onehop < List.length onehop)%nat).
Proof.
  intros onehop. split.
  - split; [apply getMaxPart_None | intros ->; reflexivity].
  - intros p Hp. split.
    + unfold getMaxPart in Hp. eapply nth_error_In. exact Hp.
    + apply maxPartKey_in_bounds. intros ->. discriminate Hp.
Qed.

(** X11.  Whatever the hop, no split has a part above the larger of 0 and
    the part of the split [getMaxPart] returns, and a split whose part is
    not strictly positive is returned only from position 0. *)
Theorem getMaxPart_bound :
  forall onehop p,
    getMaxPart onehop = Some p ->
    (forall q, In q onehop ->
               IProtocol.part q <= Z.max 0 (IProtocol.part p)) /\
    (0 < IProtocol.part p \/ maxPartKey onehop = 0%nat).
Proof.
  intros onehop p Hp. unfold getMaxPart, maxPartKey in *.
  destruct (forEach_maxPart_spec onehop 0 0 0)
    as [(_ & Hk & Hall)|(j & p' & Hk & Hn & Hpart & Hlt & Hall & _)].
  - split; [|right; exact Hk].
    intros q Hq. specialize (Hall q Hq). lia.
  - rewrite Hk in Hp. simpl in Hp. rewrite Hn in Hp. injection Hp as ->.
    rewrite Hpart. split; [|left; exact Hlt].
    intros q Hq. specialize (Hall q Hq). lia.
Qed.

Lemma getMaxPart_bound_witness :
  (forall q, In q hop_negative ->
             IProtocol.part q <= Z.max 0 (-5)) /\
  (0 < -5 \/ maxPartKey hop_negative = 0%nat).
Proof.
  apply (getMaxPart_bound hop_negative (mkSplit "A" (-5) WETH)).
  reflexivity.
Defined.

(** ** More on route extraction *)

Lemma getProtocols_loop_empty_hop :
  forall mainRoute route,
    In [] mainRoute -> getProtocols_loop mainRoute route = None.
Proof.
  induction mainRoute as [|onehop rest IH]; intros route Hin; [destruct Hin|].
  simpl. destruct Hin as [->|Hin]; [reflexivity|].
  destruct (getMaxPart onehop); [apply IH; exact Hin | reflexivity].
Qed.

(** The route built so far is a prefix of what the loop returns, and plays
    no other part in it. *)
Lemma getProtocols_loop_acc :
  forall mainRoute route,
    getProtocols_loop mainRoute route =
    option_map (app route) (getProtocols_loop mainRoute []).
Proof.
  induction mainRoute as [|onehop rest IH]; intros route; simpl.
  - rewrite app_nil_r. reflexivity.
  - destruct (getMaxPart onehop) as [besthop|]; [|reflexivity].
    rewrite IH. rewrite (IH [_]).
    destruct (getProtocols_loop rest []) as [steps|]; [|reflexivity].
    simpl. rewrite <- app_assoc. reflexivity.
Qed.

Lemma getProtocols_loop_app :
  forall route1 route2 route,
    getProtocols_loop (route1 ++ route2) route =
    match getProtocols_loop route1 route with
    | Some steps => getProtocols_loop route2 steps
    | None => None
    end.
Proof.
  induction route1 as [|onehop rest IH]; intros route2 route; simpl.
  - reflexivity.
  - destruct (getMaxPart onehop); [apply IH | reflexivity].
Qed.

Lemma getProtocols_loop_None :
  forall mainRoute route,
    getProtocols_loop mainRoute route = None -> In [] mainRoute.
Proof.
  induction mainRoute as [|onehop rest IH]; intros route H; simpl in H;
    [discriminate H|].
  destruct (getMaxPart onehop) as [besthop|] eqn:Hbest.
  - right. eapply IH. exact H.
  - left. apply getMaxPart_None. exact Hbest.
Qed.

(** X13.  [getProtocols] throws exactly on the empty tree and on a tree
    whose first route has an empty hop. *)
Theorem getProtocols_throws_iff :
  forall protocols,
    getProtocols protocols = None <->
    protocols = [] \/
    exists mainRoute,
      nth_error protocols 0 = Some mainRoute /\ In [] mainRoute.
Proof.
  intros protocols. split.
  - intros Hnone. destruct protocols as [|mainRoute alternatives];
      [left; reflexivity|].
    right. exists mainRoute. split; [reflexivity|].
    eapply getProtocols_loop_None. exact Hnone.
  - intros [->|(mainRoute & Hfirst & Hin)]; [reflexivity|].
    unfold getProtocols. rewrite Hfirst.
    apply getProtocols_loop_empty_hop. exact Hin.
Qed.

(** X14.  Extraction goes hop by hop: the route of a first route made of
    two runs of hops is the route of the first run followed by the route of
    the second, and it throws when either does. *)
Theorem getProtocols_concatenates :
  forall hops1 hops2 alternatives,
    getProtocols ((hops1 ++ hops2)%list :: alternatives) =
    match getProtocols [hops1], getProtocols [hops2] with
    | Some route1, Some route2 => Some (route1 ++ route2)%list
    | _, _ => None
    end.
Proof.
  intros hops1 hops2 alternatives. unfold getProtocols. simpl.
  rewrite getProtocols_loop_app.
  destruct (getProtocols_loop hops1 []) as [route1|]; [|reflexivity].
  rewrite getProtocols_loop_acc.
  destruct (getProtocols_loop hops2 []) as [route2|]; reflexivity.
Qed.

(** X15.  On a first route whose hops have one split each, [getProtocols]
    returns the step of each split, in order, whatever the parts are. *)
Theorem getProtocols_of_single_splits :
  forall splits alternatives,
    getProtocols (map (fun p => [p]) splits :: alternatives) =
    Some (map step_of_split splits).
Proof.
  intros splits alternatives. unfold getProtocols. simpl.
  induction splits as [|p rest IH]; [reflexivity|].
  simpl.
  assert (Hone : getMaxPart [p] = Some p).
  { unfold getMaxPart, maxPartKey. simpl.
    destruct (0 <? IProtocol.part p); reflexivity. }
  rewrite Hone, getProtocols_loop_acc, IH. reflexivity.
Qed.

(** X16.  [getRoutes] throws exactly when [getProtocols] does, and the
    route it returns has the names of the route of [getProtocols], in the
    same order. *)
Theorem getRoutes_keeps_names :
  forall MATIC WMATIC protocols,
    (getRoutes MATIC WMATIC protocols = None <->
     getProtocols protocols = None) /\
    (forall normalized,
        getRoutes MATIC WMATIC protocols = Some normalized ->
        exists route,
          getProtocols protocols = Some route /\
          map IRoute.name normalized = map IRoute.name route).
Proof.
  intros MATIC WMATIC protocols. unfold getRoutes.
  destruct (getProtocols protocols) as [route|]; simpl.
  - split; [split; discriminate|].
    intros normalized H. injection H as <-.
    exists route. split; [reflexivity|].
    rewrite map_map. reflexivity.
  - split; [tauto | discriminate].
Qed.

(** ** The further properties on concrete runs *)

Lemma result_is_all_or_nothing_witness :
  let ev :=
    mkEvaluation true (Some outboundTree) (Some returnTree) (Some "10.70")
      (Some "0.7") (Some "7.0") in
  ev = mkEvaluation false None None None None None
  \/
  (exists first second amount diff percent,
      ev = mkEvaluation (isProfitable ev) (Some first) (Some second)
             (Some amount) (Some diff) (Some percent)).
Proof.
  apply (@result_is_all_or_nothing DecimalNumber PlainChalk demoConfig
           net_both_legs DAI WETH [] _
           (snd (checkArbitrage demoConfig net_both_legs DAI WETH []))).
  vm_compute. reflexivity.
Defined.

Lemma unparsable_amount_throws_before_any_request_witness :
  baseAmount fineMarginConfig USDC = Some 10000000 /\
  checkArbitrage fineMarginConfig net_both_legs USDC WETH [] =
    (None, [resetRow]).
Proof.
  split; [reflexivity|].
  apply (@unparsable_amount_throws_before_any_request DecimalNumber
           PlainChalk fineMarginConfig net_both_legs USDC WETH []).
  right. reflexivity.
Defined.

Lemma leg2_failure_result_witness :
  exists tr,
    checkArbitrage demoConfig net_leg2_fails DAI WETH [] =
      (Some (mkEvaluation false None None None None None), tr) /\
    requests tr =
      [firstCallURL demoConfig DAI WETH 10000000000000000000;
       secondCallURL demoConfig DAI WETH "10600000000000000000"].
Proof.
  apply (@leg2_failure_result DecimalNumber PlainChalk demoConfig
           net_leg2_fails DAI WETH [] 10000000000000000000
           10500000000000000000 quote1 (Some badRequest)
           "400: Bad Request (insufficient liquidity)");
    reflexivity.
Defined.

Lemma success_row_shows_the_result_witness :
  exists ev before row,
    checkArbitrage demoConfig net_both_legs DAI WETH [] =
      (Some ev,
       (before ++ [UpdateRow row (Some (ColorFlag (isProfitable ev)))])%list)
    /\
    RowUpdate.log row = Some "" /\
    RowUpdate.toAmount row =
      option_map (fun s => padStart s 7) (toAmount ev) /\
    RowUpdate.difference row =
      option_map (fun s => padStart s 7) (difference ev) /\
    RowUpdate.percentage row =
      option_map (fun s => padStart s 5) (percentage ev).
Proof.
  apply (@success_row_shows_the_result DecimalNumber PlainChalk demoConfig
           net_both_legs DAI WETH [] 10000000000000000000
           10500000000000000000 quote1 quote2 10700000000000000000);
    reflexivity.
Defined.

Lemma unreadable_quote_amount_throws_witness :
  exists tr,
    checkArbitrage demoConfig net_malformed_leg2 DAI WETH [] = (None, tr) /\
    requests tr =
      [firstCallURL demoConfig DAI WETH 10000000000000000000;
       secondCallURL demoConfig DAI WETH "10600000000000000000"].
Proof.
  apply (@unreadable_quote_amount_throws DecimalNumber PlainChalk demoConfig
           net_malformed_leg2 DAI WETH [] 10000000000000000000
           10500000000000000000 quote1 quote2_malformed);
    [reflexivity | reflexivity | reflexivity |].
  right. split; reflexivity.
Defined.

Lemma every_row_written_is_padded_witness :
  padEnd (IToken.symbol USDT) 6 = "USD₮  " /\
  Forall row_padded
    (rowUpdates (snd (checkArbitrage demoConfig net_leg1_fails USDT WETH []))).
Proof.
  split; [reflexivity|].
  apply (@every_row_written_is_padded DecimalNumber PlainChalk demoConfig
           net_leg1_fails USDT WETH []).
  simpl. constructor.
Defined.


(** ** Amounts as text *)

From Stdlib Require Decimal DecimalFacts DecimalPos.

Lemma uint_chars_are_digits :
  forall d : Decimal.uint,
    forallb is_digit (chars (NilEmpty.string_of_uint d)) = true.
Proof.
  induction d; simpl; auto.
Qed.

Lemma uint_fold_acc :
  forall (d : Decimal.uint) (acc : positive),
    fold_left (fun a c => 10 * a + digit_value c)
      (chars (NilEmpty.string_of_uint d)) (Z.pos acc) =
    Z.pos (Pos.of_uint_acc d acc).
Proof.
  induction d; intros acc; [reflexivity|..];
    cbn [NilEmpty.string_of_uint chars list_ascii_of_string fold_left
         Pos.of_uint_acc];
    rewrite <- IHd; f_equal;
    rewrite ?Pos2Z.inj_add, Pos2Z.inj_mul;
    match goal with
    | |- context [digit_value ?c] =>
        let v := eval vm_compute in (digit_value c) in
        change (digit_value c) with v
    end; lia.
Qed.

Lemma uint_digits_value :
  forall d : Decimal.uint,
    digits_value (chars (NilEmpty.string_of_uint d)) = Z.of_N (Pos.of_uint d).
Proof.
  unfold digits_value.
  induction d; [reflexivity|..];
    cbn [NilEmpty.string_of_uint chars list_ascii_of_string fold_left
         Pos.of_uint];
    [exact IHd|..];
    match goal with
    | |- fold_left _ _ ?a = _ =>
        let p := eval cbv in (Z.to_pos a) in
        change a with (Z.pos p)
    end;
    rewrite uint_fold_acc; reflexivity.
Qed.

Lemma to_uint_leading_digit :
  forall p d, Pos.to_uint p <> Decimal.D0 d.
Proof.
  intros p d H.
  assert (Hnorm : Decimal.unorm (Pos.to_uint p) = Pos.to_uint p).
  { rewrite <- (DecimalPos.Unsigned.to_of (Pos.to_uint p)).
    rewrite DecimalPos.Unsigned.of_to. reflexivity. }
  assert (Hnz : Decimal.nzhead (Pos.to_uint p) <> Decimal.Nil).
  { intros Hnil. apply DecimalFacts.unorm_0 in Hnil. rewrite Hnorm in Hnil.
    exact (DecimalPos.Unsigned.to_uint_nonzero p Hnil). }
  rewrite (DecimalFacts.unorm_nzhead _ Hnz) in Hnorm.
  apply (DecimalFacts.nzhead_nonzero (Pos.to_uint p) d). rewrite Hnorm. exact H.
Qed.

Lemma digits_value_nonneg :
  forall l, 0 <= digits_value l.
Proof.
  intros l. unfold digits_value.
  assert (H : forall acc, 0 <= acc ->
              0 <= fold_left (fun a c => 10 * a + digit_value c) l acc).
  { induction l as [|c l IH]; intros acc Hacc; cbn [fold_left];
      [exact Hacc|].
    apply IH. unfold digit_value. lia. }
  apply H. lia.
Qed.

(** The decimal digits of a non-negative integer. *)
Lemma string_of_Z_digits :
  forall n,
    0 <= n ->
    let l := chars (string_of_Z n) in
    l <> [] /\ forallb is_digit l = true /\ digits_value l = n /\
    (forall decimals, n < 10 ^ Z.of_nat decimals -> (1 <= decimals)%nat ->
                      (List.length l <= decimals)%nat).
Proof.
  intros n Hn. cbn zeta. unfold string_of_Z.
  destruct n as [|p|p]; [|clear Hn|lia].
  - simpl. splits; try reflexivity; [discriminate | intros; simpl; lia].
  - cbn [Z.to_int NilZero.string_of_int].
    pose proof (DecimalPos.Unsigned.to_uint_nonnil p) as Hnonnil.
    pose proof (to_uint_leading_digit p) as Hlead.
    pose proof (uint_digits_value (Pos.to_uint p)) as Hvalue.
    rewrite DecimalPos.Unsigned.of_to in Hvalue.
    pose proof (uint_chars_are_digits (Pos.to_uint p)) as Hdigits.
    assert (Hstr : NilZero.string_of_uint (Pos.to_uint p) =
                   NilEmpty.string_of_uint (Pos.to_uint p)).
    { destruct (Pos.to_uint p); [congruence | reflexivity..]. }
    rewrite Hstr.
    set (l := chars (NilEmpty.string_of_uint (Pos.to_uint p))) in *.
    assert (Hhead : exists c l', l = c :: l' /\ 1 <= digit_value c).
    { subst l. destruct (Pos.to_uint p) as [|u|u|u|u|u|u|u|u|u|u];
        [congruence | exfalso; exact (Hlead u eq_refl) |..];
        simpl; do 2 eexists; (split; [reflexivity|]);
        unfold digit_value; simpl; lia. }
    destruct Hhead as (c & l' & Hl & Hc).
    splits.
    + rewrite Hl. discriminate.
    + exact Hdigits.
    + exact Hvalue.
    + intros decimals Hlt Hd.
      change (Z.of_N (N.pos p)) with (Z.pos p) in Hvalue.
      rewrite Hl in Hvalue |- *.
      change (c :: l') with ([c] ++ l')%list in Hvalue.
      rewrite digits_value_app in Hvalue.
      assert (Hc' : digits_value [c] = digit_value c).
      { unfold digits_value. simpl. lia. }
      rewrite Hc' in Hvalue.
      pose proof (digits_value_nonneg l') as Hl'.
      assert (Hpow : 10 ^ Z.of_nat (List.length l') < 10 ^ Z.of_nat decimals).
      { assert (0 < 10 ^ Z.of_nat (List.length l')) by (apply Z.pow_pos_nonneg; lia).
        nia. }
      apply Z.pow_lt_mono_r_iff in Hpow; [|lia|lia]. simpl. lia.
Qed.

Lemma text_chars : forall s, text (chars s) = s.
Proof. exact string_of_list_ascii_of_string. Qed.

Lemma text_app :
  forall l1 l2, text (l1 ++ l2) = text l1 ++ text l2.
Proof.
  induction l1 as [|c l1 IH]; intros l2; simpl; [|rewrite IH]; reflexivity.
Qed.

Lemma digits_not_hex_prefixed :
  forall l, forallb is_digit l = true -> is_hex_prefixed l = false.
Proof.
  intros [|z [|x [|y l]]] H; try reflexivity.
  simpl in H. apply andb_prop in H as [_ H]. apply andb_prop in H as [Hx _].
  unfold is_hex_prefixed.
  destruct (Ascii.eqb_spec x "x"%char) as [->|_]; [discriminate Hx|].
  destruct (Ascii.eqb_spec x "X"%char) as [->|_]; [discriminate Hx|].
  apply andb_false_r.
Qed.

Lemma unsigned_of_digits :
  forall l,
    l <> [] -> forallb is_digit l = true ->
    unsigned_of_chars l = Some (digits_value l).
Proof.
  intros l Hne Hdigits. unfold unsigned_of_chars.
  rewrite (digits_not_hex_prefixed l Hdigits), Hdigits.
  destruct l; [congruence | reflexivity].
Qed.

Lemma BigNumber_from_digits :
  forall s,
    chars s <> [] -> forallb is_digit (chars s) = true ->
    BigNumber_from_string s = Some (digits_value (chars s)).
Proof.
  intros s Hne Hdigits. unfold BigNumber_from_string.
  rewrite <- (unsigned_of_digits _ Hne Hdigits).
  destruct (chars s) as [|c l]; [congruence|].
  simpl in Hdigits. apply andb_prop in Hdigits as [Hc _].
  destruct c as [[|] [|] [|] [|] [|] [|] [|] [|]];
    try discriminate Hc; reflexivity.
Qed.

Lemma string_of_Z_neg :
  forall p, string_of_Z (Z.neg p) = String "-" (string_of_Z (Z.pos p)).
Proof. reflexivity. Qed.

Lemma BigNumber_from_string_of_Z :
  forall z, BigNumber_from_string (string_of_Z z) = Some z.
Proof.
  intros z.
  assert (Hpos : forall n, 0 <= n ->
                 BigNumber_from_string (string_of_Z n) = Some n).
  { intros n Hn. destruct (string_of_Z_digits n Hn) as (Hne & Hd & Hv & _).
    rewrite (BigNumber_from_digits _ Hne Hd), Hv. reflexivity. }
  destruct z as [|p|p]; [apply Hpos; lia | apply Hpos; lia |].
  rewrite string_of_Z_neg.
  destruct (string_of_Z_digits (Z.pos p)) as (Hne & Hd & Hv & _); [lia|].
  unfold BigNumber_from_string. cbn [chars list_ascii_of_string].
  fold (chars (string_of_Z (Z.pos p))).
  rewrite (unsigned_of_digits _ Hne Hd), Hv. reflexivity.
Qed.

Lemma parseFixed_minus :
  forall s decimals,
    (exists c l, chars s = c :: l /\ is_digit c = true) ->
    parseFixed (String "-" s) decimals =
    option_map Z.opp (parseFixed s decimals).
Proof.
  intros s decimals (c & l & Hs & Hc). unfold parseFixed.
  destruct (getMultiplier decimals) as [multiplier|]; [|reflexivity].
  cbn [chars list_ascii_of_string]. fold (chars s). rewrite Hs.
  cbn [starts_with_minus tl]. rewrite (digit_not_minus c Hc).
  change (Ascii.eqb "-"%char "-"%char) with true. cbv iota.
  destruct (is_empty (c :: l) || negb (forallb digit_or_dot (c :: l)));
    [reflexivity|].
  destruct (is_lone_dot (c :: l)); [reflexivity|].
  destruct (split_dot (c :: l)) as [|whole [|f1 [|f2 rest]]];
    try reflexivity;
    match goal with
    | |- context [if ?b then None else _] => destruct b; reflexivity
    end.
Qed.

Lemma zeros_are_digits :
  forall k, forallb is_digit (repeat "0"%char k) = true.
Proof.
  induction k as [|k IH]; [reflexivity | exact IH].
Qed.

(** What [formatFixed] prints for a non-negative [v], read by
    [parseFixed] at the same decimals. *)
Lemma parseFixed_of_formatted :
  forall v decimals,
    0 <= v -> (decimals <= 256)%nat ->
    let multiplier := 10 ^ Z.of_nat decimals in
    let fraction := chars (string_of_Z (v mod multiplier)) in
    let fraction :=
      (repeat "0"%char (decimals - List.length fraction) ++ fraction)%list in
    let fraction := or_zero (trim_trailing_zeros fraction) in
    let whole := string_of_Z (v / multiplier) in
    let s :=
      if (decimals =? 0)%nat then whole
      else whole ++ "." ++ text fraction in
    parseFixed s decimals = Some v /\
    exists c l, chars s = c :: l /\ is_digit c = true.
Proof.
  intros v decimals Hv Hd. cbn zeta.
  set (m := 10 ^ Z.of_nat decimals).
  assert (Hm : 0 < m) by (apply Z.pow_pos_nonneg; lia).
  assert (Hq : 0 <= v / m) by (apply Z.div_pos; lia).
  assert (Hr : 0 <= v mod m < m) by (apply Z.mod_pos_bound; lia).
  destruct (string_of_Z_digits (v / m) Hq) as (Wne & Wd & Wv & _).
  set (W := chars (string_of_Z (v / m))) in *.
  assert (Hhead : exists c l, W = c :: l /\ is_digit c = true).
  { destruct W as [|c l]; [congruence|]. exists c, l.
    simpl in Wd. apply andb_prop in Wd as [Hc _]. split; [reflexivity|exact Hc]. }
  assert (Hfits0 : forall G, forallb is_digit G = true ->
                     (List.length G <= decimals)%nat ->
                     literal_fits W G decimals = true).
  { intros G HG Hlen. unfold literal_fits. rewrite Wd, HG.
    apply Nat.leb_le in Hlen. rewrite Hlen.
    destruct W; [congruence | reflexivity]. }
  destruct (Nat.eqb_spec decimals 0) as [Hzero|Hpos].
  - split.
    + rewrite <- (text_chars (string_of_Z (v / m))). fold W.
      change (text W) with (decimal_literal W []).
      rewrite parseFixed_literal; [|apply Hfits0; [reflexivity | simpl; lia] | exact Hd].
      rewrite Wv. f_equal. subst m. rewrite Hzero in *. simpl.
      change (10 ^ Z.of_nat 0) with 1 in *. rewrite Z.div_1_r. lia.
    + destruct Hhead as (c & l & HW & Hc). exists c, l. split; [exact HW | exact Hc].
  - destruct (string_of_Z_digits (v mod m) (proj1 Hr)) as (Rne & Rd & Rv & Rlen).
    set (R := chars (string_of_Z (v mod m))) in *.
    assert (HRlen : (List.length R <= decimals)%nat).
    { apply Rlen; [exact (proj2 Hr) | lia]. }
    set (F := (repeat "0"%char (decimals - List.length R) ++ R)%list).
    assert (HFd : forallb is_digit F = true).
    { unfold F. rewrite forallb_app, zeros_are_digits, Rd. reflexivity. }
    assert (HFv : digits_value F = v mod m).
    { unfold F. rewrite digits_value_app, digits_value_zeros, Rv. lia. }
    assert (HFlen : List.length F = decimals).
    { unfold F. rewrite length_app, repeat_length. lia. }
    destruct (trim_trailing_zeros_spec F) as [k Hk].
    set (T := trim_trailing_zeros F) in *.
    assert (HTd : forallb is_digit T = true).
    { rewrite Hk, forallb_app in HFd. apply andb_prop in HFd as [HT _]. exact HT. }
    assert (HTlen : (List.length T + k = decimals)%nat).
    { rewrite <- HFlen. rewrite Hk at 1. rewrite length_app, repeat_length. reflexivity. }
    assert (HGd : forallb is_digit (or_zero T) = true).
    { destruct T; [reflexivity | exact HTd]. }
    assert (HGlen : (List.length (or_zero T) <= decimals)%nat).
    { destruct T; simpl in *; lia. }
    assert (HGne : or_zero T <> []).
    { destruct T; discriminate. }
    assert (Hs : string_of_Z (v / m) ++ "." ++ text (or_zero T) =
                 decimal_literal W (or_zero T)).
    { unfold decimal_literal. destruct (or_zero T) as [|g G]; [congruence|].
      rewrite text_app. unfold W. rewrite text_chars. reflexivity. }
    rewrite Hs. split.
    + rewrite parseFixed_literal; [|apply Hfits0; assumption | exact Hd].
      f_equal. rewrite Wv. fold m.
      assert (HG : digits_value (or_zero T)
                   * 10 ^ Z.of_nat (decimals - List.length (or_zero T))
                   = v mod m).
      { rewrite <- HFv. rewrite Hk at 1.
        rewrite digits_value_app, digits_value_zeros, repeat_length.
        destruct T as [|t T'].
        - simpl. reflexivity.
        - cbn [or_zero]. replace (decimals - List.length (t :: T'))%nat with k by lia.
          lia. }
      rewrite HG. pose proof (Z.div_mod v m). lia.
    + destruct Hhead as (c & l & HW & Hc). exists c, (l ++ "."%char :: or_zero T)%list.
      split; [|exact Hc].
      unfold decimal_literal. rewrite chars_text.
      destruct (or_zero T); [congruence|]. rewrite HW. reflexivity.
Qed.

(** X18.  Decimal conversion loses nothing: the text [formatUnits] prints
    for an amount, at any decimals ethers accepts, is a text [parseUnits]
    reads back at the same decimals as the same integer. *)
Theorem parseUnits_formatUnits :
  forall value z decimals,
    BigNumber_from value = Some z ->
    (decimals <= 256)%nat ->
    exists s,
      formatUnits value decimals = Some s /\
      parseUnits s decimals = Some z.
Proof.
  intros value z decimals Hz Hd.
  unfold formatUnits, formatFixed, getMultiplier, parseUnits.
  pose proof Hd as Hleb. apply Nat.leb_le in Hleb. rewrite Hleb, Hz.
  eexists. split; [reflexivity|]. cbn zeta.
  destruct (parseFixed_of_formatted (Z.abs z) decimals (Z.abs_nonneg z) Hd)
    as (Hparse & Hhead).
  cbn zeta in Hparse, Hhead.
  destruct (Z.ltb_spec z 0) as [Hneg|Hnonneg].
  - cbn [append]. rewrite (parseFixed_minus _ _ Hhead), Hparse.
    simpl. f_equal. lia.
  - rewrite Hparse. f_equal. lia.
Qed.

Lemma parseUnits_formatUnits_witness :
  exists s,
    formatUnits (Raw "10600000000000000000") 18 = Some s /\
    parseUnits s 18 = Some 10600000000000000000.
Proof.
  apply (parseUnits_formatUnits (Raw "10600000000000000000")
           10600000000000000000 18);
    [reflexivity | lia].
Defined.

(** X17.  The amount [get1inchQuoteCallUrl] writes for a [BigNumber] is its
    decimal text, which [BigNumber.from] reads back as the same integer,
    negative or not. *)
Theorem url_amount_reads_back :
  forall z, BigNumber_from (Raw (amount_toString (BN z))) = Some z.
Proof.
  intros z. exact (BigNumber_from_string_of_Z z).
Qed.

(** ** Amounts finer than the token *)

Lemma trim_nonzero_last :
  forall fraction c,
    Ascii.eqb c "0"%char = false ->
    trim_trailing_zeros (fraction ++ [c]) = (fraction ++ [c])%list.
Proof.
  intros fraction c Hc. unfold trim_trailing_zeros.
  rewrite rev_app_distr. cbn [rev app drop_zeros]. rewrite Hc.
  cbn [rev]. rewrite rev_involutive. reflexivity.
Qed.

Lemma parseFixed_underflow :
  forall whole fraction c decimals,
    whole <> [] ->
    forallb is_digit whole = true ->
    forallb is_digit (fraction ++ [c]) = true ->
    Ascii.eqb c "0"%char = false ->
    (decimals < List.length (fraction ++ [c]))%nat ->
    parseFixed (decimal_literal whole (fraction ++ [c])) decimals = None.
Proof.
  intros whole fraction c decimals Hne Hw Hf Hc Hlen.
  unfold parseFixed.
  destruct (getMultiplier decimals) as [multiplier|]; [|reflexivity].
  unfold decimal_literal. rewrite chars_text.
  set (f := (fraction ++ [c])%list) in *.
  assert (Hfne : f <> []) by (unfold f; destruct fraction; discriminate).
  destruct f as [|e f'] eqn:Hfeq; [congruence|]. rewrite <- Hfeq in *.
  destruct whole as [|d whole']; [congruence|].
  pose proof Hw as Hw'. simpl in Hw'. apply andb_prop in Hw' as [Hd _].
  assert (Hv : (d :: whole' ++ "."%char :: f)%list
               = ((d :: whole') ++ "."%char :: f)%list) by reflexivity.
  cbn [starts_with_minus app]. rewrite (digit_not_minus d Hd).
  cbn [is_empty orb].
  assert (Hall : forallb digit_or_dot (d :: whole' ++ "."%char :: f) = true).
  { rewrite Hv, forallb_app. rewrite (digits_are_digit_or_dot _ Hw).
    simpl. unfold digit_or_dot at 1. simpl.
    apply (digits_are_digit_or_dot _ Hf). }
  rewrite Hall. cbn [negb].
  assert (Hlone : is_lone_dot (d :: whole' ++ "."%char :: f) = false).
  { unfold is_lone_dot. destruct whole'; reflexivity. }
  rewrite Hlone, Hv, (split_dot_literal _ _ Hw Hf).
  cbn [hd]. replace (or_zero f) with f by (rewrite Hfeq; reflexivity).
  unfold f at 1 2. rewrite (trim_nonzero_last fraction c Hc). fold f.
  apply Nat.ltb_lt in Hlen. rewrite Hlen. reflexivity.
Qed.

(** X19.  Where the loan, or the loan plus the margin, prints with more
    decimal places than the source token has decimals (the last place not
    being 0), [parseUnits] throws on it: there is no base amount,
    respectively no threshold, and so no evaluation. *)
Theorem amount_finer_than_token_is_unparsable :
  forall (num : JsNumber) (cfg : Config.t) (fromToken : IToken.t)
         (whole fraction : list ascii) (c : ascii),
    whole <> [] ->
    forallb is_digit whole = true ->
    forallb is_digit (fraction ++ [c]) = true ->
    c <> "0"%char ->
    (IToken.decimals fromToken < List.length (fraction ++ [c]))%nat ->
    (toString (Config.loanAmount cfg) =
       decimal_literal whole (fraction ++ [c]) ->
     baseAmount cfg fromToken = None) /\
    (toString (add (Config.loanAmount cfg) (Config.diffAmount cfg)) =
       decimal_literal whole (fraction ++ [c]) ->
     thresholdAmount cfg fromToken = None).
Proof.
  intros num cfg fromToken whole fraction c Hne Hw Hf Hc Hlen.
  apply Ascii.eqb_neq in Hc.
  split; intros Hprint; unfold baseAmount, thresholdAmount, parseUnits;
    rewrite Hprint; apply parseFixed_underflow; assumption.
Qed.

Lemma amount_finer_than_token_is_unparsable_witness :
  thresholdAmount fineMarginConfig USDC = None.
Proof.
  apply (amount_finer_than_token_is_unparsable DecimalNumber
           fineMarginConfig USDC (chars "10") (chars "000000") "1"%char);
    [discriminate | reflexivity | reflexivity | discriminate | simpl; lia
    | reflexivity].
Defined.
